(** * jrpc2: the wire codec, the address helper and the reply plumbing

    A shallow embedding of the parts of package [jrpc2] that [base.go],
    [opts.go] and the built-in [rpc.*] handlers define: request parsing and
    batch framing, response classification, [Response.wait], the client
    callback adaptor, the [rpc.cancel] handler and [Network].

    Go strings and byte slices are sequences of bytes and are embedded as
    [string]; a [json.RawMessage] may be nil and is embedded as
    [option string]; Go [int] values are embedded as [Z]. *)

From Stdlib Require Import ZArith NArith Ascii String List Lia Bool.
From Stdlib Require Import Permutation DecimalString.
From Equations Require Import Equations.
From stdpp Require Import base option list gmap strings.

Local Open Scope Z_scope.

(** ** Bytes and slices *)

Module Bytes.

Definition val (c : ascii) : N := N_of_ascii c.

(** [lo <= c && c <= hi] on bytes. *)
Definition between (lo hi c : ascii) : bool :=
  ((val lo <=? val c) && (val c <=? val hi))%N.

Definition len (s : string) : Z := Z.of_nat (String.length s).

Fixpoint drop (n : nat) (s : string) : string :=
  match n, s with
  | O, _ => s
  | S _, EmptyString => EmptyString
  | S n', String _ s' => drop n' s'
  end.

Fixpoint take (n : nat) (s : string) : string :=
  match n, s with
  | O, _ => EmptyString
  | S _, EmptyString => EmptyString
  | S n', String c s' => String c (take n' s')
  end.

(** The slice expressions [s[:i]] and [s[i:]], for [0 <= i <= len(s)]. *)
Definition slice_to (s : string) (i : Z) : string := take (Z.to_nat i) s.
Definition slice_from (s : string) (i : Z) : string := drop (Z.to_nat i) s.

Fixpoint mem (c : ascii) (s : string) : Prop :=
  match s with
  | EmptyString => False
  | String b s' => b = c \/ mem c s'
  end.

Fixpoint all (p : ascii -> bool) (s : string) : bool :=
  match s with
  | EmptyString => true
  | String b s' => p b && all p s'
  end.

(** The first byte, if any: [len(s) != 0 && s[0] == c]. *)
Definition starts_with (c : ascii) (s : string) : bool :=
  match s with
  | String b _ => Ascii.eqb b c
  | EmptyString => false
  end.

Lemma length_drop n s : String.length (drop n s) = (String.length s - n)%nat.
Proof.
  revert s; induction n as [|n IH]; intros [|c s]; simpl; auto with arith.
Qed.

Lemma app_cons c (a b : string) : String c a +:+ b = String c (a +:+ b).
Proof. reflexivity. Qed.

Lemma app_nil_l (a : string) : "" +:+ a = a.
Proof. reflexivity. Qed.

Lemma take_drop n s : take n s +:+ drop n s = s.
Proof.
  revert s; induction n as [|n IH]; intros [|c s]; simpl; auto.
  now rewrite app_cons, IH.
Qed.

Lemma app_assoc (a b c : string) : (a +:+ b) +:+ c = a +:+ b +:+ c.
Proof.
  induction a as [|x a IH]; [reflexivity | now rewrite !app_cons, IH].
Qed.

Lemma app_nil_r (a : string) : a +:+ "" = a.
Proof.
  induction a as [|x a IH]; [reflexivity | now rewrite app_cons, IH].
Qed.

Lemma length_app (a b : string) :
  String.length (a +:+ b) = (String.length a + String.length b)%nat.
Proof.
  induction a as [|x a IH]; [reflexivity | rewrite app_cons; simpl; now rewrite IH].
Qed.

Lemma mem_app c (a b : string) : mem c (a +:+ b) <-> mem c a \/ mem c b.
Proof.
  induction a as [|x a IH]; [rewrite app_nil_l | rewrite app_cons]; simpl; tauto.
Qed.

Lemma all_spec p s : all p s = true <-> (forall c, mem c s -> p c = true).
Proof.
  induction s as [|b s IH]; simpl.
  - split; [intros _ c [] | reflexivity].
  - rewrite andb_true_iff, IH. split.
    + intros [Hb Hs] c [<-|Hc]; auto.
    + intros H; split; [apply H; now left | intros c Hc; apply H; now right].
Qed.

End Bytes.

(** ** Package [unicode/utf8]: the width of the rune at the head of a string *)

Module utf8.
Import Bytes.

(** The table [first] together with [acceptRanges]: for a leading byte, the
    length of the sequence and the range accepted for the second byte. *)
Definition first (b : N) : option (nat * N * N) :=
  (if (b <? 0xC2) then None
   else if (b <? 0xE0) then Some (2%nat, 0x80, 0xBF)
   else if (b =? 0xE0) then Some (3%nat, 0xA0, 0xBF)
   else if (b =? 0xED) then Some (3%nat, 0x80, 0x9F)
   else if (b <? 0xF0) then Some (3%nat, 0x80, 0xBF)
   else if (b =? 0xF0) then Some (4%nat, 0x90, 0xBF)
   else if (b <? 0xF4) then Some (4%nat, 0x80, 0xBF)
   else if (b =? 0xF4) then Some (4%nat, 0x80, 0x8F)
   else None)%N.

Definition cont (c : ascii) : bool := ((0x80 <=? val c) && (val c <=? 0xBF))%N.

(** [DecodeRuneInString], reduced to what its callers here use: the width
    of the first rune and whether it is a well-formed encoding (an
    ill-formed one decodes as [RuneError] of width 1). *)
Definition DecodeRuneInString (s : string) : nat * bool :=
  match s with
  | EmptyString => (0%nat, false)
  | String s0 r =>
    if (val s0 <? 0x80)%N then (1%nat, true)
    else
      match first (val s0) with
      | None => (1%nat, false)
      | Some (sz, lo, hi) =>
        match r with
        | EmptyString => (1%nat, false)
        | String s1 r1 =>
          if negb ((lo <=? val s1) && (val s1 <=? hi))%N then (1%nat, false)
          else if (sz <=? 2)%nat then (2%nat, true)
          else
            match r1 with
            | EmptyString => (1%nat, false)
            | String s2 r2 =>
              if negb (cont s2) then (1%nat, false)
              else if (sz <=? 3)%nat then (3%nat, true)
              else
                match r2 with
                | EmptyString => (1%nat, false)
                | String s3 _ =>
                  if negb (cont s3) then (1%nat, false) else (4%nat, true)
                end
            end
        end
      end
  end.

Definition width (s : string) : nat := fst (DecodeRuneInString s).

Lemma width_pos c s : (1 <= width (String c s))%nat.
Proof.
  unfold width, DecodeRuneInString.
  repeat (match goal with
          | |- context [if ?b then _ else _] => destruct b
          | |- context [match ?x with _ => _ end] => destruct x
          end; simpl; try lia).
Qed.

Lemma width_ascii c s : (val c < 0x80)%N -> width (String c s) = 1%nat.
Proof.
  intros H. unfold width, DecodeRuneInString.
  apply N.ltb_lt in H. now rewrite H.
Qed.

End utf8.

(** ** Package [strings]: the two searches [Network] performs *)

Module strings.

Fixpoint index_from (i : Z) (c : ascii) (s : string) : Z :=
  match s with
  | EmptyString => -1
  | String b s' => if Ascii.eqb b c then i else index_from (i + 1) c s'
  end.

(** [strings.IndexByte(s, c)]: the index of the first [c] in [s], or -1. *)
Definition IndexByte (s : string) (c : ascii) : Z := index_from 0 c s.

Fixpoint last_index_from (i : Z) (c : ascii) (s : string) (found : Z) : Z :=
  match s with
  | EmptyString => found
  | String b s' =>
    last_index_from (i + 1) c s' (if Ascii.eqb b c then i else found)
  end.

(** [strings.LastIndex(s, sep)] for a separator of one byte: the index of
    the last [c] in [s], or -1. *)
Definition LastIndex (s : string) (c : ascii) : Z := last_index_from 0 c s (-1).

End strings.

(** ** [Network] and [isServiceName] *)

Definition is_service_byte (b : ascii) : bool :=
  Bytes.between "0" "9" b || Bytes.between "A" "Z" b
  || Bytes.between "a" "z" b || Ascii.eqb b "-"%char.

(** The loop [for i := range s { b := s[i]; ... }] visits the first byte of
    every rune of [s]; the argument is the part of [s] not yet visited. *)
Equations? isServiceName (s : string) : bool by wf (String.length s) lt :=
  isServiceName EmptyString := true;
  isServiceName (String b r) :=
    if is_service_byte b
    then isServiceName (Bytes.drop (utf8.width (String b r)) (String b r))
    else false.
Proof.
  pose proof (utf8.width_pos b r) as Hw.
  destruct (utf8.width (String b r)) as [|w]; [lia|].
  simpl. rewrite Bytes.length_drop. lia.
Qed.

Definition Network (s : string) : string :=
  let i := strings.LastIndex s ":"%char in
  if i <? 0 then "unix"
  else
    let host := Bytes.slice_to s i in
    let port := Bytes.slice_from s (i + 1) in
    if String.eqb port "" || negb (isServiceName port) then "unix"
    else if strings.IndexByte host "/"%char >=? 0 then "unix"
    else "tcp".

(** ** Package [encoding/json], as far as the codec calls it

    The program hands every frame to [json.Unmarshal] and [json.Marshal] of
    the Go standard library.  This module is an executable model of the calls
    it makes: the validity scanner, the raw text of a value, the split of an
    array into raw elements and of an object into decoded keys and raw
    values, string unquoting and quoting, and [compact].  The nesting limit
    of the Go scanner (10000 levels) is not modelled. *)

Module json.
Import Bytes.

(** The double quote. *)
Definition dq : ascii := "034"%char.

Definition is_space (c : ascii) : bool :=
  Ascii.eqb c " " || Ascii.eqb c "009" || Ascii.eqb c "010" || Ascii.eqb c "013".

Fixpoint skip_space (s : string) : string :=
  match s with
  | String c r => if is_space c then skip_space r else s
  | EmptyString => s
  end.

Definition is_digit (c : ascii) : bool := between "0" "9" c.

Definition hexval (c : ascii) : option N :=
  if between "0" "9" c then Some (val c - 48)%N
  else if between "a" "f" c then Some (val c - 87)%N
  else if between "A" "F" c then Some (val c - 55)%N
  else None.

(** [getu4] without the leading backslash and [u]: four hex digits. *)
Definition getu4 (s : string) : option N :=
  match s with
  | String a (String b (String c (String d _))) =>
    match hexval a, hexval b, hexval c, hexval d with
    | Some x, Some y, Some z, Some w => Some (x * 4096 + y * 256 + z * 16 + w)%N
    | _, _, _, _ => None
    end
  | _ => None
  end.

Definition byte_of (n : N) : ascii := ascii_of_N n.

(** [utf8.EncodeRune]; surrogates and out-of-range values encode as
    U+FFFD. *)
Definition EncodeRune (r : N) : string :=
  (if r <? 0x80 then String (byte_of r) ""
   else if r <? 0x800 then
     String (byte_of (0xC0 + r / 64)) (String (byte_of (0x80 + r mod 64)) "")
   else if (0x10FFFF <? r) || ((0xD800 <=? r) && (r <=? 0xDFFF)) then
     String (byte_of 0xEF) (String (byte_of 0xBF) (String (byte_of 0xBD) ""))
   else if r <? 0x10000 then
     String (byte_of (0xE0 + r / 4096))
       (String (byte_of (0x80 + (r / 64) mod 64))
          (String (byte_of (0x80 + r mod 64)) ""))
   else
     String (byte_of (0xF0 + r / 262144))
       (String (byte_of (0x80 + (r / 4096) mod 64))
          (String (byte_of (0x80 + (r / 64) mod 64))
             (String (byte_of (0x80 + r mod 64)) ""))))%N.

Definition RuneError : N := 0xFFFD%N.

(** The scanner inside a string literal, after the opening quote: the text
    up to the closing quote and what follows it. *)
Fixpoint scan_string (s : string) : option (string * string) :=
  match s with
  | EmptyString => None
  | String c r =>
    if Ascii.eqb c dq then Some ("", r)
    else if Ascii.eqb c "\" then
      match r with
      | String e r1 =>
        if Ascii.eqb e "u" then
          match r1 with
          | String h1 (String h2 (String h3 (String h4 r2))) =>
            match hexval h1, hexval h2, hexval h3, hexval h4 with
            | Some _, Some _, Some _, Some _ =>
              match scan_string r2 with
              | Some (body, rest) =>
                Some (String c (String e (String h1 (String h2
                       (String h3 (String h4 body))))), rest)
              | None => None
              end
            | _, _, _, _ => None
            end
          | _ => None
          end
        else if Ascii.eqb e dq || Ascii.eqb e "\" || Ascii.eqb e "/"
                || Ascii.eqb e "b" || Ascii.eqb e "f" || Ascii.eqb e "n"
                || Ascii.eqb e "r" || Ascii.eqb e "t" then
          match scan_string r1 with
          | Some (body, rest) => Some (String c (String e body), rest)
          | None => None
          end
        else None
      | EmptyString => None
      end
    else if (val c <? 0x20)%N then None
    else
      match scan_string r with
      | Some (body, rest) => Some (String c body, rest)
      | None => None
      end
  end.

Definition unescape (e : ascii) : ascii :=
  if Ascii.eqb e "b" then "008"
  else if Ascii.eqb e "f" then "012"
  else if Ascii.eqb e "n" then "010"
  else if Ascii.eqb e "r" then "013"
  else if Ascii.eqb e "t" then "009"
  else e.

(** [unquoteBytes] on the text between the quotes of a scanned literal. *)
Fixpoint unquote_loop (fuel : nat) (s : string) : string :=
  match fuel with
  | O => ""
  | S fuel' =>
    match s with
    | EmptyString => ""
    | String c r =>
      if Ascii.eqb c "\" then
        match r with
        | String e r1 =>
          if Ascii.eqb e "u" then
            match getu4 r1 with
            | Some rr =>
              let r2 := drop 4 r1 in
              if ((0xD800 <=? rr) && (rr <? 0xE000))%N then
                let rr1 :=
                  match r2 with
                  | String b (String u r3) =>
                    if Ascii.eqb b "\" && Ascii.eqb u "u" then getu4 r3 else None
                  | _ => None
                  end in
                match rr1 with
                | Some lo =>
                  if ((rr <? 0xDC00) && (0xDC00 <=? lo) && (lo <? 0xE000))%N
                  then EncodeRune (0x10000 + (rr - 0xD800) * 1024 + (lo - 0xDC00))%N
                         +:+ unquote_loop fuel' (drop 6 r2)
                  else EncodeRune RuneError +:+ unquote_loop fuel' r2
                | None => EncodeRune RuneError +:+ unquote_loop fuel' r2
                end
              else EncodeRune rr +:+ unquote_loop fuel' r2
            | None => ""
            end
          else String (unescape e) (unquote_loop fuel' r1)
        | EmptyString => ""
        end
      else if (val c <? 0x80)%N then String c (unquote_loop fuel' r)
      else
        let '(size, ok) := utf8.DecodeRuneInString s in
        if ok then take size s +:+ unquote_loop fuel' (drop size s)
        else EncodeRune RuneError +:+ unquote_loop fuel' r
    end
  end.

Definition unquote (body : string) : string :=
  unquote_loop (String.length body) body.

Fixpoint skip_digits (s : string) : string :=
  match s with
  | String c r => if is_digit c then skip_digits r else s
  | EmptyString => s
  end.

Definition digits1 (s : string) : option string :=
  match s with
  | String c r => if is_digit c then Some (skip_digits r) else None
  | EmptyString => None
  end.

(** A number starting at the head of [s]: what follows it. *)
Definition scan_number (s : string) : option string :=
  let s1 := match s with
            | String c r => if Ascii.eqb c "-" then r else s
            | EmptyString => s
            end in
  match s1 with
  | EmptyString => None
  | String c r =>
    let int_end :=
      if Ascii.eqb c "0" then Some r
      else if between "1" "9" c then Some (skip_digits r)
      else None in
    match int_end with
    | None => None
    | Some r1 =>
      let frac_end :=
        match r1 with
        | String d r2 => if Ascii.eqb d "." then digits1 r2 else Some r1
        | EmptyString => Some r1
        end in
      match frac_end with
      | None => None
      | Some r3 =>
        match r3 with
        | String e r4 =>
          if Ascii.eqb e "e" || Ascii.eqb e "E" then
            match r4 with
            | String sg r5 =>
              if Ascii.eqb sg "+" || Ascii.eqb sg "-" then digits1 r5
              else digits1 r4
            | EmptyString => None
            end
          else Some r3
        | EmptyString => Some r3
        end
      end
    end
  end.

(** [s] with the prefix [lit] removed, when it has that prefix. *)
Fixpoint scan_literal (lit s : string) : option string :=
  match lit with
  | EmptyString => Some s
  | String l lit' =>
    match s with
    | String c r => if Ascii.eqb c l then scan_literal lit' r else None
    | EmptyString => None
    end
  end.

(** What the decoder sees of a value: its kind, the decoded text of a
    string, the raw elements of an array, the decoded keys and raw values
    of an object in the order of the text. *)
Inductive token : Type :=
| TNull
| TBool (b : bool)
| TNumber
| TString (s : string)
| TArray (elems : list string)
| TObject (members : list (string * string)).

(** The bytes of [s] that come before its suffix [rest]. *)
Definition consumed (s rest : string) : string :=
  take (String.length s - String.length rest) s.

Fixpoint scan_value (fuel : nat) (s : string) {struct fuel}
  : option (token * string) :=
  match fuel with
  | O => None
  | S fuel' =>
    match s with
    | EmptyString => None
    | String c r =>
      if Ascii.eqb c "{" then
        match skip_space r with
        | String c1 r1 =>
          if Ascii.eqb c1 "}" then Some (TObject [], r1)
          else
            match scan_members fuel' (String c1 r1) with
            | Some (ms, rest) => Some (TObject ms, rest)
            | None => None
            end
        | EmptyString => None
        end
      else if Ascii.eqb c "[" then
        match skip_space r with
        | String c1 r1 =>
          if Ascii.eqb c1 "]" then Some (TArray [], r1)
          else
            match scan_elements fuel' (String c1 r1) with
            | Some (es, rest) => Some (TArray es, rest)
            | None => None
            end
        | EmptyString => None
        end
      else if Ascii.eqb c dq then
        match scan_string r with
        | Some (body, rest) => Some (TString (unquote body), rest)
        | None => None
        end
      else if Ascii.eqb c "t" then
        option_map (pair (TBool true)) (scan_literal "rue" r)
      else if Ascii.eqb c "f" then
        option_map (pair (TBool false)) (scan_literal "alse" r)
      else if Ascii.eqb c "n" then
        option_map (pair TNull) (scan_literal "ull" r)
      else option_map (pair TNumber) (scan_number s)
    end
  end

with scan_elements (fuel : nat) (s : string) {struct fuel}
  : option (list string * string) :=
  match fuel with
  | O => None
  | S fuel' =>
    match scan_value fuel' s with
    | Some (_, r) =>
      let raw := consumed s r in
      match skip_space r with
      | String c r1 =>
        if Ascii.eqb c "," then
          match scan_elements fuel' (skip_space r1) with
          | Some (es, rest) => Some (raw :: es, rest)
          | None => None
          end
        else if Ascii.eqb c "]" then Some ([raw], r1)
        else None
      | EmptyString => None
      end
    | None => None
    end
  end

with scan_members (fuel : nat) (s : string) {struct fuel}
  : option (list (string * string) * string) :=
  match fuel with
  | O => None
  | S fuel' =>
    match s with
    | String q r =>
      if Ascii.eqb q dq then
        match scan_string r with
        | Some (body, r1) =>
          match skip_space r1 with
          | String colon r2 =>
            if Ascii.eqb colon ":" then
              let v := skip_space r2 in
              match scan_value fuel' v with
              | Some (_, r3) =>
                let raw := consumed v r3 in
                match skip_space r3 with
                | String c r4 =>
                  if Ascii.eqb c "," then
                    match scan_members fuel' (skip_space r4) with
                    | Some (ms, rest) => Some ((unquote body, raw) :: ms, rest)
                    | None => None
                    end
                  else if Ascii.eqb c "}" then Some ([(unquote body, raw)], r4)
                  else None
                | EmptyString => None
                end
              | None => None
              end
            else None
          | EmptyString => None
          end
        | None => None
        end
      else None
    | EmptyString => None
    end
  end.

(** A whole text: optional space, one value, optional space.  The result
    is the raw text of the value, without the surrounding space, and its
    token; [None] is the scanner's syntax error.  A value of [n] bytes
    needs at most [n] units of fuel. *)
Definition parse (data : string) : option (string * token) :=
  let s := skip_space data in
  match scan_value (S (String.length s)) s with
  | Some (t, rest) =>
    match skip_space rest with
    | EmptyString => Some (consumed s rest, t)
    | String _ _ => None
    end
  | None => None
  end.

Definition Valid (data : string) : bool :=
  match parse data with Some _ => true | None => false end.

(** [json.Unmarshal(data, &raw)] for a [json.RawMessage]: any valid value,
    stored as its raw text; [None] is a decoding error. *)
Definition Unmarshal_RawMessage (data : string) : option string :=
  option_map fst (parse data).

(** [json.Unmarshal(data, &msgs)] for a [[]json.RawMessage]: an array gives
    its raw elements and [null] leaves the slice as it was; any other
    value is a type error. *)
Definition Unmarshal_RawMessages (data : string) (old : list string)
  : option (list string) :=
  match parse data with
  | Some (_, TArray es) => Some es
  | Some (_, TNull) => Some old
  | _ => None
  end.

(** [json.Unmarshal(data, &obj)] for a [map[string]json.RawMessage]: an
    object fills the map, a later duplicate key replacing an earlier one,
    and [null] leaves the map as it was (nil); any other value is a type
    error. *)
Definition Unmarshal_object (data : string) (old : gmap string string)
  : option (gmap string string) :=
  match parse data with
  | Some (_, TObject ms) =>
    Some (fold_left (fun m kv => <[kv.1 := kv.2]> m) ms old)
  | Some (_, TNull) => Some old
  | _ => None
  end.

(** [json.Unmarshal(data, &s)] for a [string]: a JSON string is decoded
    and [null] leaves [s] as it was; any other value is a type error. *)
Definition Unmarshal_string (data : string) (old : string) : option string :=
  match parse data with
  | Some (_, TString s) => Some s
  | Some (_, TNull) => Some old
  | _ => None
  end.

Definition hexdigit (n : N) : ascii :=
  if (n <? 10)%N then byte_of (48 + n) else byte_of (87 + n).

(** [backslash u 0 0 h l] for the byte [c]. *)
Definition escape_u00 (c : ascii) : string :=
  String "\" (String "u" (String "0" (String "0"
    (String (hexdigit (val c / 16)) (String (hexdigit (val c mod 16)) ""))))).

Definition html_safe (c : ascii) : bool :=
  negb ((val c <? 0x20)%N || Ascii.eqb c dq || Ascii.eqb c "\"
        || Ascii.eqb c "<" || Ascii.eqb c ">" || Ascii.eqb c "&").

(** U+2028 and U+2029 are the bytes E2 80 A8 and E2 80 A9. *)
Definition line_separator (s : string) : option ascii :=
  match s with
  | String a (String b (String c _)) =>
    if ((val a =? 0xE2) && (val b =? 0x80) && ((val c =? 0xA8) || (val c =? 0xA9)))%N
    then Some (hexdigit (val c mod 16)) else None
  | _ => None
  end.

(** The body of the string encoder, with HTML escaping on (the default of
    [json.Marshal]); backspace and form feed are written in the
    [u00XX] form. *)
Fixpoint quote_loop (fuel : nat) (s : string) : string :=
  match fuel with
  | O => ""
  | S fuel' =>
    match s with
    | EmptyString => ""
    | String c r =>
      if (val c <? 0x80)%N then
        if html_safe c then String c (quote_loop fuel' r)
        else if Ascii.eqb c "\" || Ascii.eqb c dq then
          String "\" (String c (quote_loop fuel' r))
        else if Ascii.eqb c "010" then String "\" (String "n" (quote_loop fuel' r))
        else if Ascii.eqb c "013" then String "\" (String "r" (quote_loop fuel' r))
        else if Ascii.eqb c "009" then String "\" (String "t" (quote_loop fuel' r))
        else escape_u00 c +:+ quote_loop fuel' r
      else
        let '(size, ok) := utf8.DecodeRuneInString s in
        if negb ok then "\ufffd" +:+ quote_loop fuel' r
        else
          match line_separator s with
          | Some h => "\u202" +:+ String h (quote_loop fuel' (drop size s))
          | None => take size s +:+ quote_loop fuel' (drop size s)
          end
    end
  end.

(** A Go string as a JSON string literal. *)
Definition quote (s : string) : string :=
  String dq (quote_loop (String.length s) s +:+ String dq "").

Fixpoint compact_loop (in_string escaped : bool) (s : string) : string :=
  match s with
  | EmptyString => ""
  | String c r =>
    let plain :=
      if in_string then
        if escaped then String c (compact_loop true false r)
        else if Ascii.eqb c "\" then String c (compact_loop true true r)
        else if Ascii.eqb c dq then String c (compact_loop false false r)
        else String c (compact_loop true false r)
      else if is_space c then compact_loop false false r
      else if Ascii.eqb c dq then String c (compact_loop true false r)
      else String c (compact_loop false false r) in
    if Ascii.eqb c "<" || Ascii.eqb c ">" || Ascii.eqb c "&" then
      escape_u00 c +:+ compact_loop in_string false r
    else
      match r with
      | String b (String d r3) =>
        match line_separator s with
        | Some h => "\u202" +:+ String h (compact_loop in_string false r3)
        | None => plain
        end
      | _ => plain
      end
  end.

(** [compact] with HTML escaping, as the encoder applies it to what a
    [Marshaler] returns: the value without insignificant space, or an
    error when the text is not valid JSON. *)
Definition compact (raw : string) : option string :=
  if Valid raw then Some (compact_loop false false raw) else None.

(** The encoding of a [json.RawMessage] that [omitempty] did not omit. *)
Definition Marshal_RawMessage (raw : string) : option string := compact raw.

(** An [int32] in decimal. *)
Definition Marshal_int (n : Z) : string := NilZero.string_of_int (Z.to_int n).

Fixpoint join_comma (parts : list string) : string :=
  match parts with
  | [] => ""
  | [x] => x
  | x :: rest => x +:+ "," +:+ join_comma rest
  end.

Fixpoint sequence (parts : list (option string)) : option (list string) :=
  match parts with
  | [] => Some []
  | Some x :: rest => option_map (cons x) (sequence rest)
  | None :: _ => None
  end.

(** A slice of values, given the encoder of one value: a JSON array, or
    the error of the first element that fails. *)
Definition Marshal_slice {A} (enc : A -> option string) (l : list A)
  : option string :=
  option_map (fun parts => "[" +:+ join_comma parts +:+ "]") (sequence (map enc l)).

(** A struct, given its encoded fields in declaration order; a field
    dropped by [omitempty] is [None], a field whose encoding fails is
    [Some None]. *)
Definition Marshal_struct (fields : list (option (string * option string)))
  : option string :=
  option_map (fun parts => "{" +:+ join_comma parts +:+ "}")
    (sequence
       (omap (fun f =>
                match f with
                | Some (name, Some v) => Some (Some (quote name +:+ ":" +:+ v))
                | Some (_, None) => Some None
                | None => None
                end) fields)).

End json.

(** ** Error codes, error values and the protocol version *)

(** Modelled from the spec: package [code] is not among the sources; these
    are the JSON-RPC 2.0 codes the specification lists. *)
Module code.
Definition ParseError : Z := -32700.
Definition InvalidRequest : Z := -32600.
Definition MethodNotFound : Z := -32601.
Definition InvalidParams : Z := -32602.
Definition InternalError : Z := -32603.
End code.

Abbreviation RawMessage := (option string) (only parsing).

(** [string(raw)] and [len(raw)] for a raw message that may be nil. *)
Definition raw_string (raw : RawMessage) : string := default "" raw.
Definition raw_len (raw : RawMessage) : Z := Bytes.len (raw_string raw).

(** The [*Error] type: a code, a message and optional raw data. *)
Record Error : Type := mkError {
  Error_code : Z;
  Error_message : string;
  Error_data : RawMessage
}.

(** Modelled from the spec: [Errorf] is declared outside the sources; with a
    format that has no verbs it builds the error of that code and message. *)
Definition Errorf (c : Z) (msg : string) : Error := mkError c msg None.

(** Modelled from the spec: the constant [Version] is declared outside the
    sources; the version marker of the protocol is the string 2.0. *)
Definition Version : string := "2.0".

Definition ErrInvalidVersion : Error :=
  Errorf code.InvalidRequest "incorrect version marker".

(** [fixID]: the text [null] is a synonym for an unset ID. *)
Definition fixID (id : RawMessage) : RawMessage :=
  if negb (String.eqb (raw_string id) "null") then id else None.

(** ** Requests *)

Record Request : Type := mkRequest {
  Request_id : RawMessage;
  Request_method : string;
  Request_params : RawMessage
}.

Definition IsNotification (r : Request) : bool :=
  match Request_id r with None => true | Some _ => false end.

Definition ID (r : Request) : string := raw_string (Request_id r).

Definition Method (r : Request) : string := Request_method r.

Definition HasParams (r : Request) : bool := negb (raw_len (Request_params r) =? 0).

(** ** The iteration order of a Go map

    [for key, val := range obj] visits the entries of a map in an order the
    language leaves unspecified and that may differ from one loop to the
    next.  The model takes the order as a parameter: any function that
    lists the entries of the map, one for each loop that is run (the loops
    of a frame are numbered by the position of the message they decode). *)
Class MapOrder : Type := {
  range_order : nat -> gmap string string -> list (string * string);
  range_order_perm : forall i m, range_order i m ≡ₚ map_to_list m
}.

(** ** [jrequest]: the transmission format of a request *)

Module jrequest.

Record t : Type := mk {
  V : string;
  ID : RawMessage;
  M : string;
  P : RawMessage;
  batch : bool;
  err : option Error
}.

(** [jrequest{}], also what [new(jrequest)] points to. *)
Definition zero : t := mk "" None "" None false None.

Definition set_V (j : t) (v : string) : t := mk v (ID j) (M j) (P j) (batch j) (err j).
Definition set_ID (j : t) (v : RawMessage) : t := mk (V j) v (M j) (P j) (batch j) (err j).
Definition set_M (j : t) (v : string) : t := mk (V j) (ID j) v (P j) (batch j) (err j).
Definition set_P (j : t) (v : RawMessage) : t := mk (V j) (ID j) (M j) v (batch j) (err j).
Definition set_batch (j : t) (v : bool) : t := mk (V j) (ID j) (M j) (P j) v (err j).
Definition set_err (j : t) (v : option Error) : t := mk (V j) (ID j) (M j) (P j) (batch j) v.

(** [j.fail(code, msg)]: records the error in [j] (and returns it). *)
Definition fail (j : t) (c : Z) (msg : string) : t :=
  set_err j (Some (Errorf c msg)).

(** [len(j.P) != 0 && j.P[0] != '[' && j.P[0] != '{']. *)
Definition bad_params (p : RawMessage) : bool :=
  negb (raw_len p =? 0)
  && negb (Bytes.starts_with "[" (raw_string p))
  && negb (Bytes.starts_with "{" (raw_string p)).

(** One turn of the loop over the fields of the object: the [switch] on
    the key.  The state is [j] and the slice [extra]. *)
Definition field (st : t * list string) (kv : string * string) : t * list string :=
  let '(j, extra) := st in
  let '(key, val) := kv in
  if String.eqb key "jsonrpc" then
    match json.Unmarshal_string val (V j) with
    | Some v => (set_V j v, extra)
    | None => (fail j code.ParseError "invalid version key", extra)
    end
  else if String.eqb key "id" then (set_ID j (Some val), extra)
  else if String.eqb key "method" then
    match json.Unmarshal_string val (M j) with
    | Some m => (set_M j m, extra)
    | None => (fail j code.ParseError "invalid method name", extra)
    end
  else if String.eqb key "params" then
    let j1 := if negb (String.eqb val "null") then set_P j (Some val) else j in
    let j2 := if bad_params (P j1)
              then fail j1 code.InvalidRequest "parameters must be array or object"
              else j1 in
    (j2, extra)
  else (j, extra ++ [key]).

(** The loop and the check that follows it, on the entries in the order
    the loop visits them. *)
Definition fields (entries : list (string * string)) : t :=
  let '(j, extra) := fold_left field entries (zero, []) in
  if negb (Z.of_nat (length extra) =? 0)
  then fail j code.InvalidRequest "extra fields in request"
  else j.

(** [j.parseJSON(data)], where [order] is the order in which the loop
    visits the map: the new value of [j] and the error returned. *)
Definition parseJSON (order : gmap string string -> list (string * string))
    (j : t) (data : string) : t * option Error :=
  match json.Unmarshal_object data ∅ with
  | None =>
    let j' := fail j code.ParseError "request is not a JSON object" in
    (j', err j')
  | Some obj => (fields (order obj), None)
  end.

(** [json.Marshal(j)]: the exported fields under their tags; [id] and
    [params] carry [omitempty]. *)
Definition Marshal (j : t) : option string :=
  json.Marshal_struct
    [ Some ("jsonrpc", Some (json.quote (V j)));
      (if raw_len (ID j) =? 0 then None
       else Some ("id", json.Marshal_RawMessage (raw_string (ID j))));
      Some ("method", Some (json.quote (M j)));
      (if raw_len (P j) =? 0 then None
       else Some ("params", json.Marshal_RawMessage (raw_string (P j)))) ].

End jrequest.

(** ** [jrequests]: a single request or a slice of requests *)

Module jrequests.

(** [j.toJSON()]; the empty list stands for an empty, non-nil slice. *)
Definition toJSON (j : list jrequest.t) : option string :=
  match j with
  | [j0] => jrequest.Marshal j0
  | _ => json.Marshal_slice jrequest.Marshal j
  end.

(** The first half of [parseJSON]: the raw messages of the frame and
    whether the frame is a batch, or the error returned. *)
Definition messages (data : string) : Error + (list string * bool) :=
  if (Bytes.len data =? 0) || negb (Bytes.starts_with "[" data) then
    match json.Unmarshal_RawMessage data with
    | None => inl (Errorf code.ParseError "invalid request message")
    | Some raw => inr ([raw], false)
    end
  else
    match json.Unmarshal_RawMessages data [] with
    | None => inl (Errorf code.ParseError "invalid request batch")
    | Some msgs => inr (msgs, true)
    end.

(** The body of the second loop: one raw message becomes one request. *)
Definition member `{MapOrder} (is_batch : bool) (i : nat) (raw : string)
  : jrequest.t :=
  jrequest.set_batch
    (jrequest.parseJSON (range_order i) jrequest.zero raw).1 is_batch.

(** [j.parseJSON(data)]: the requests of the frame, or the error. *)
Definition parseJSON `{MapOrder} (data : string) : Error + list jrequest.t :=
  match messages data with
  | inl e => inl e
  | inr (msgs, is_batch) => inr (imap (member is_batch) msgs)
  end.

End jrequests.

(** ** [ParseRequests] *)

(** The loop of [ParseRequests]: [out[i]] and the running [err]. *)
Definition ParseRequests_step (st : list Request * option Error) (req : jrequest.t)
  : list Request * option Error :=
  let '(out, err) := st in
  (out ++ [mkRequest (fixID (jrequest.ID req)) (jrequest.M req) (jrequest.P req)],
   if negb (String.eqb (jrequest.V req) Version) then Some ErrInvalidVersion else err).

(** [ParseRequests(msg)]: the slice (nil is [None]) and the error. *)
Definition ParseRequests `{MapOrder} (msg : string)
  : option (list Request) * option Error :=
  match jrequests.parseJSON msg with
  | inl e => (None, Some e)
  | inr req =>
    let '(out, err) := fold_left ParseRequests_step req ([], None) in
    (Some out, err)
  end.

(** ** [jerror], [jresponse] and [jresponses] *)

Record jerror : Type := mkjerror {
  jerror_Code : Z;
  jerror_Msg : string;
  jerror_Data : RawMessage
}.

Definition jerror_Marshal (e : jerror) : option string :=
  json.Marshal_struct
    [ Some ("code", Some (json.Marshal_int (jerror_Code e)));
      (if String.eqb (jerror_Msg e) "" then None
       else Some ("message", Some (json.quote (jerror_Msg e))));
      (if raw_len (jerror_Data e) =? 0 then None
       else Some ("data", json.Marshal_RawMessage (raw_string (jerror_Data e)))) ].

Module jresponse.

Record t : Type := mk {
  V : string;
  ID : RawMessage;
  E : option jerror;
  R : RawMessage;
  M : string;
  P : RawMessage;
  batch : bool
}.

(** [j.E == nil && j.R == nil && j.M != ""]. *)
Definition isServerRequest (j : t) : bool :=
  match E j with None => true | Some _ => false end
  && match R j with None => true | Some _ => false end
  && negb (String.eqb (M j) "").

(** [json.Marshal(j)]: every field but [jsonrpc] carries [omitempty]. *)
Definition Marshal (j : t) : option string :=
  json.Marshal_struct
    [ Some ("jsonrpc", Some (json.quote (V j)));
      (if raw_len (ID j) =? 0 then None
       else Some ("id", json.Marshal_RawMessage (raw_string (ID j))));
      match E j with
      | None => None
      | Some e => Some ("error", jerror_Marshal e)
      end;
      (if raw_len (R j) =? 0 then None
       else Some ("result", json.Marshal_RawMessage (raw_string (R j))));
      (if String.eqb (M j) "" then None
       else Some ("method", Some (json.quote (M j))));
      (if raw_len (P j) =? 0 then None
       else Some ("params", json.Marshal_RawMessage (raw_string (P j)))) ].

End jresponse.

Module jresponses.

(** [j.toJSON()]; the empty list stands for an empty, non-nil slice. *)
Definition toJSON (j : list jresponse.t) : option string :=
  match j with
  | [j0] =>
    if negb (jresponse.batch j0) then jresponse.Marshal j0
    else json.Marshal_slice jresponse.Marshal j
  | _ => json.Marshal_slice jresponse.Marshal j
  end.

End jresponses.

(** ** Effects: a state, and a result that may be a panic or a blocked receive *)

Inductive result (P A : Type) : Type :=
| Returned (a : A)
| Panicked (p : P)
| Blocked.
Arguments Returned {P A} a.
Arguments Panicked {P A} p.
Arguments Blocked {P A}.

(** A program over a state [S] that may panic with a value of type [P]. *)
Definition prog (S P A : Type) : Type := S -> result P A * S.

Definition ret {S P A} (a : A) : prog S P A := fun s => (Returned a, s).

Definition bind {S P A B} (m : prog S P A) (f : A -> prog S P B) : prog S P B :=
  fun s =>
    match m s with
    | (Returned a, s') => f a s'
    | (Panicked p, s') => (Panicked p, s')
    | (Blocked, s') => (Blocked, s')
    end.

Definition panic {S P A} (p : P) : prog S P A := fun s => (Panicked p, s).

Definition when {S P} (b : bool) (m : prog S P unit) : prog S P unit :=
  if b then m else ret tt.

Declare Scope prog_scope.
Delimit Scope prog_scope with prog.
Notation "x <- m ;; k" := (bind m (fun x => k))
  (at level 100, m at next level, right associativity) : prog_scope.
Notation "m ;; k" := (bind m (fun _ => k))
  (at level 100, right associativity) : prog_scope.

(** ** [Response] and [Response.wait] *)

(** The channel [ch] of a pending call: the client writes to it at most
    once, so it holds no value, one value, or is closed. *)
Inductive chan (A : Type) : Type :=
| ChanEmpty
| ChanValue (v : A)
| ChanClosed.
Arguments ChanEmpty {A}.
Arguments ChanValue {A} v.
Arguments ChanClosed {A}.

Record Response : Type := mkResponse {
  Response_id : string;
  Response_err : option Error;
  Response_result : RawMessage;
  Response_ch : chan jresponse.t
}.

(** What [wait] does to the response and to the world, in program order. *)
Inductive action : Type :=
| StoreErr (e : Error)
| StoreResult (r : RawMessage)
| CloseChannel
| CallCancel.

Section Wait.

(** [strconv.Quote], the verb [%q] of [fmt.Sprintf]. *)
Variable Quote : string -> string.

Definition wait_state : Type := Response * list action.

(** [raw, ok := <-r.ch] *)
Definition receive : prog wait_state string (option jresponse.t) :=
  fun '(r, trace) =>
    match Response_ch r with
    | ChanEmpty => (Blocked, (r, trace))
    | ChanValue v =>
      (Returned (Some v),
       (mkResponse (Response_id r) (Response_err r) (Response_result r) ChanEmpty,
        trace))
    | ChanClosed => (Returned None, (r, trace))
    end.

(** [r.err = &Error{...}] *)
Definition store_err (e : Error) : prog wait_state string unit :=
  fun '(r, trace) =>
    (Returned tt,
     (mkResponse (Response_id r) (Some e) (Response_result r) (Response_ch r),
      trace ++ [StoreErr e])).

(** [r.result = raw.R] *)
Definition store_result (res : RawMessage) : prog wait_state string unit :=
  fun '(r, trace) =>
    (Returned tt,
     (mkResponse (Response_id r) (Response_err r) res (Response_ch r),
      trace ++ [StoreResult res])).

(** [close(r.ch)] *)
Definition close_channel : prog wait_state string unit :=
  fun '(r, trace) =>
    (Returned tt,
     (mkResponse (Response_id r) (Response_err r) (Response_result r) ChanClosed,
      trace ++ [CloseChannel])).

(** [r.cancel()] *)
Definition call_cancel : prog wait_state string unit :=
  fun '(r, trace) => (Returned tt, (r, trace ++ [CallCancel])).

Definition get_id : prog wait_state string string :=
  fun '(r, trace) => (Returned (Response_id r), (r, trace)).

Definition mismatch (id expecting : string) : string :=
  "Mismatched response ID " +:+ Quote id +:+ " expecting " +:+ Quote expecting.

Definition wait : prog wait_state string unit :=
  (received <- receive ;;
   match received with
   | Some raw =>
     match jresponse.E raw with
     | Some e =>
       store_err (mkError (jerror_Code e) (jerror_Msg e) (jerror_Data e))
     | None => ret tt
     end ;;
     store_result (jresponse.R raw) ;;
     close_channel ;;
     call_cancel ;;
     let id := raw_string (fixID (jresponse.ID raw)) in
     rid <- get_id ;;
     when (negb (String.eqb id rid)) (panic (mismatch id rid))
   | None => ret tt
   end)%prog.

End Wait.

(** ** The client's callback adaptor: [panicToError] and [handleCallback] *)

(** Modelled from the spec: the type [jmessage] is declared outside the
    sources; these are the fields [handleCallback] reads and writes, the
    wire fields of a request and of a response. *)
Record jmessage : Type := mkjmessage {
  jmessage_V : string;
  jmessage_ID : RawMessage;
  jmessage_M : string;
  jmessage_P : RawMessage;
  jmessage_E : option Error;
  jmessage_R : RawMessage
}.

Section Callback.

(** The values a handler may return or panic with ([interface{}]), and
    the error values that are not an [*Error]. *)
Variables value other : Type.

Inductive error : Type :=
| ErrorPtr (e : Error)
| ErrorString (msg : string)
| ErrorOther (o : other).

(** [json.Marshal(v)], the verb [%v], the method [Error()] of the other
    error values, [code.FromError] and [json.Marshal] of a [*jmessage]:
    all declared outside the sources. *)
Variable Marshal_value : value -> string + error.
Variable format_v : value -> string.
Variable other_Error : other -> string.
Variable FromError : error -> Z.
Variable Marshal_jmessage : jmessage -> RawMessage.

(** [fmt.Errorf(format, p)] for the one format [panicToError] uses. *)
Definition panic_error (p : value) : error :=
  ErrorString ("panic in callback handler: " +:+ format_v p).

(** A call of [f()]: it returns its two results, or it panics.  [Panics p]
    carries what [recover()] then returns in the deferred function: the
    value of the panic, or nil ([None]) for [panic(nil)] in a program built
    with the semantics of Go 1.20 and earlier (since Go 1.21 that panic is
    recovered as a non-nil [*runtime.PanicNilError]). *)
Inductive call : Type :=
| Returns (v : option value) (err : option error)
| Panics (p : option value).

(** [panicToError(f)]: when [f] panics, the deferred function sets [err]
    if [recover()] is not nil, and the named results are otherwise left
    as they are, nil. *)
Definition panicToError (f : call) : option value * option error :=
  match f with
  | Returns v err => (v, err)
  | Panics (Some p) => (None, Some (panic_error p))
  | Panics None => (None, None)
  end.

(** [OnCallback]; the context it is given is a fresh cancellable one. *)
Definition callback : Type := Request -> call.

Record ClientOptions : Type := mkClientOptions {
  OnCallback : option callback
}.

(** The message [rsp] that the adaptor marshals. *)
Definition callback_reply (cb : callback) (req : jmessage) : jmessage :=
  let rsp := mkjmessage Version (jmessage_ID req) "" None None None in
  let '(v, err) :=
    panicToError
      (cb (mkRequest (jmessage_ID req) (jmessage_M req) (jmessage_P req))) in
  let '(rsp, err) :=
    match err with
    | None =>
      match v with
      | Some v' =>
        match Marshal_value v' with
        | inl bits =>
          (mkjmessage (jmessage_V rsp) (jmessage_ID rsp) (jmessage_M rsp)
             (jmessage_P rsp) (jmessage_E rsp) (Some bits), None)
        | inr e =>
          (mkjmessage (jmessage_V rsp) (jmessage_ID rsp) (jmessage_M rsp)
             (jmessage_P rsp) (jmessage_E rsp) None, Some e)
        end
      | None =>
        (mkjmessage (jmessage_V rsp) (jmessage_ID rsp) (jmessage_M rsp)
           (jmessage_P rsp) (jmessage_E rsp) (Some "null"), None)
      end
    | Some e => (rsp, Some e)
    end in
  match err with
  | None => rsp
  | Some err' =>
    let e :=
      match err' with
      | ErrorPtr e => e
      | ErrorString msg => mkError (FromError err') msg None
      | ErrorOther o => mkError (FromError err') (other_Error o) None
      end in
    mkjmessage (jmessage_V rsp) (jmessage_ID rsp) (jmessage_M rsp)
      (jmessage_P rsp) (Some e) None
  end.

(** [c.handleCallback()]: nil without options or without [OnCallback]. *)
Definition handleCallback (c : option ClientOptions)
  : option (jmessage -> RawMessage) :=
  match c with
  | None => None
  | Some opts =>
    match OnCallback opts with
    | None => None
    | Some cb => Some (fun req => Marshal_jmessage (callback_reply cb req))
    end
  end.

End Callback.

(** ** The built-in [rpc.cancel] *)

(** Modelled from the spec: the type [Server], its pending map and its
    methods [cancel] and [log] are declared outside the sources.  The
    pending map takes the id of every request in flight to its cancel
    function; a cancel function is named by the number of the context it
    cancels, and [cancelled] lists the contexts whose cancel function has
    been invoked, in order. *)
Record Server : Type := mkServer {
  used : gmap string nat;
  cancelled : list nat;
  logged : list string
}.

(** Modelled from the spec: [s.cancel(id)], for each id found in the pending
    map, invokes its cancel function; it reports whether the id was found. *)
Definition Server_cancel (s : Server) (id : string) : Server * bool :=
  match used s !! id with
  | Some c => (mkServer (used s) (cancelled s ++ [c]) (logged s), true)
  | None => (s, false)
  end.

Definition Server_log (s : Server) (msg : string) : Server :=
  mkServer (used s) (cancelled s) (logged s ++ [msg]).

(** Modelled from the spec: the context of a handler carries the inbound
    request, which [InboundRequest] recovers. *)
Record Context : Type := mkContext {
  InboundRequest : Request
}.

(** The errors the handler returns: [code.Code.Err()] and the error of
    [json.Unmarshal]. *)
Inductive handler_error : Type :=
| CodeErr (c : Z)
| DecodeErr.

(** [r.UnmarshalParams(&ids)] for [ids] of type [[]json.RawMessage]. *)
Definition UnmarshalParams_ids (r : Request) (ids : list string)
  : option (list string) :=
  if raw_len (Request_params r) =? 0 then Some ids
  else json.Unmarshal_RawMessages (raw_string (Request_params r)) ids.

(** One turn of the loop of [cancelRequests]. *)
Definition cancelRequests_step (s : Server) (raw : string) : Server :=
  let id := raw in
  let '(s', found) := Server_cancel s id in
  if found
  then Server_log s' ("Cancelled request " +:+ id +:+ " by client order")
  else s'.

Definition cancelRequests (s : Server) (ids : list string) : Server :=
  fold_left cancelRequests_step ids s.

(** [s.handleRPCCancel(ctx, req)]: the server afterwards and the error
    returned; the result value is nil on every path. *)
Definition handleRPCCancel (s : Server) (ctx : Context) (req : Request)
  : Server * option handler_error :=
  if negb (IsNotification (InboundRequest ctx)) then
    (s, Some (CodeErr code.MethodNotFound))
  else
    match UnmarshalParams_ids req [] with
    | None => (s, Some DecodeErr)
    | Some ids => (cancelRequests s ids, None)
    end.

(** [s.CancelRequest(id)] *)
Definition CancelRequest (s : Server) (id : string) : Server :=
  cancelRequests s [id].

(** ** Examples: JSON text and two iteration orders *)

(** JSON text written with a single quote wherever the text has a double
    quote. *)
Fixpoint lit (s : string) : string :=
  match s with
  | EmptyString => EmptyString
  | String c r => String (if Ascii.eqb c "'" then json.dq else c) (lit r)
  end.

(** The order of [map_to_list], and its reverse: two of the orders in which
    a loop may visit a map. *)
Definition listed_order : MapOrder :=
  {| range_order := fun _ m => map_to_list m;
     range_order_perm := fun _ m => Permutation_refl (map_to_list m) |}.

Definition reversed_order : MapOrder :=
  {| range_order := fun _ m => rev (map_to_list m);
     range_order_perm := fun _ m => Permutation_sym (Permutation_rev (map_to_list m)) |}.

(** * Properties *)

(** ** [Network] *)

Module NetworkSpec.
Import Bytes.

(** An ASCII letter, a digit or the dash, in the words of the
    specification. *)
Definition service_char (c : ascii) : Prop :=
  (48 <= val c <= 57)%N \/ (65 <= val c <= 90)%N \/ (97 <= val c <= 122)%N
  \/ c = "-"%char.

Lemma is_service_byte_spec c : is_service_byte c = true <-> service_char c.
Proof.
  unfold is_service_byte, service_char, between.
  rewrite !orb_true_iff, !andb_true_iff, !N.leb_le, Ascii.eqb_eq.
  change (val "0") with 48%N. change (val "9") with 57%N.
  change (val "A") with 65%N. change (val "Z") with 90%N.
  change (val "a") with 97%N. change (val "z") with 122%N.
  tauto.
Qed.

Lemma service_char_ascii c : service_char c -> (val c < 0x80)%N.
Proof.
  intros [H|[H|[H| ->]]]; try lia. reflexivity.
Qed.

(** The loop over the runes of [s] inspects every byte of [s] as long as
    the bytes it has seen are ASCII. *)
Lemma isServiceName_all s : isServiceName s = all is_service_byte s.
Proof.
  funelim (isServiceName s); [reflexivity|].
  simpl. destruct (is_service_byte b) eqn:Hb; [|reflexivity].
  rewrite H. rewrite utf8.width_ascii; [reflexivity|].
  now apply service_char_ascii, is_service_byte_spec.
Qed.

Lemma mem_dec c s : {mem c s} + {~ mem c s}.
Proof.
  induction s as [|b s IH]; simpl; [right; tauto|].
  destruct (ascii_dec b c); [left; now left|].
  destruct IH; [left; now right | right; tauto].
Qed.

Lemma last_index_absent i c s found :
  ~ mem c s -> strings.last_index_from i c s found = found.
Proof.
  revert i found; induction s as [|b s IH]; intros i found Hm; simpl; [reflexivity|].
  simpl in Hm. rewrite IH by tauto.
  destruct (Ascii.eqb_spec b c); [tauto | reflexivity].
Qed.

Lemma last_index_split i c h p found :
  ~ mem c p ->
  strings.last_index_from i c (h +:+ String c p) found = i + len h.
Proof.
  intros Hp. revert i found; induction h as [|b h IH]; intros i found.
  - rewrite app_nil_l. simpl. rewrite Ascii.eqb_refl.
    rewrite last_index_absent by assumption. unfold len; simpl; lia.
  - rewrite app_cons. simpl. rewrite IH. unfold len; simpl; lia.
Qed.

(** A string that contains [c] splits at its last [c]. *)
Lemma split_last c s :
  mem c s -> exists h p, s = h +:+ String c p /\ ~ mem c p.
Proof.
  induction s as [|b s IH]; simpl; [tauto|].
  intros Hm.
  destruct (mem_dec c s) as [Hs|Hs].
  - destruct (IH Hs) as (h & p & -> & Hp).
    exists (String b h), p. now rewrite app_cons.
  - destruct Hm as [->|Hm]; [|tauto].
    exists "", s. now rewrite app_nil_l.
Qed.

Lemma index_from_absent i c s : ~ mem c s -> strings.index_from i c s = -1.
Proof.
  revert i; induction s as [|b s IH]; intros i Hm; simpl; [reflexivity|].
  simpl in Hm. destruct (Ascii.eqb_spec b c); [tauto|]. apply IH; tauto.
Qed.

Lemma index_from_present i c s : mem c s -> i <= strings.index_from i c s.
Proof.
  revert i; induction s as [|b s IH]; intros i Hm; simpl in *; [tauto|].
  destruct (Ascii.eqb_spec b c); [lia|].
  destruct Hm as [?|Hm]; [tauto|]. specialize (IH (i + 1) Hm). lia.
Qed.

Lemma take_app h p : take (String.length h) (h +:+ p) = h.
Proof.
  induction h as [|b h IH]; [now destruct p|].
  rewrite app_cons. simpl. now rewrite IH.
Qed.

Lemma drop_app h p : drop (String.length h) (h +:+ p) = p.
Proof.
  induction h as [|b h IH]; [reflexivity|]. rewrite app_cons. simpl. apply IH.
Qed.

Lemma drop_app_cons h c p : drop (S (String.length h)) (h +:+ String c p) = p.
Proof.
  induction h as [|b h IH]; [reflexivity|]. rewrite app_cons. simpl. apply IH.
Qed.

Lemma split_unique c h p h' p' :
  h +:+ String c p = h' +:+ String c p' ->
  ~ mem c p -> ~ mem c p' -> h = h' /\ p = p'.
Proof.
  revert h'; induction h as [|b h IH]; intros [|b' h'] Heq Hp Hp'.
  - rewrite !app_nil_l in Heq. now inversion Heq.
  - rewrite app_nil_l, app_cons in Heq. inversion Heq; subst.
    exfalso. apply Hp. apply mem_app. right. now left.
  - rewrite app_nil_l, app_cons in Heq. inversion Heq; subst.
    exfalso. apply Hp'. apply mem_app. right. now left.
  - rewrite !app_cons in Heq. inversion Heq; subst.
    destruct (IH h' H1 Hp Hp') as [-> ->]. auto.
Qed.

(** What [Network] computes for a string split at its last colon. *)
Lemma Network_split h p :
  ~ mem ":" p ->
  Network (h +:+ String ":" p) =
  if String.eqb p "" || negb (all is_service_byte p) then "unix"
  else if strings.IndexByte h "/" >=? 0 then "unix" else "tcp".
Proof.
  intros Hp. unfold Network, strings.LastIndex.
  rewrite last_index_split by assumption.
  assert (Hlen : 0 <= len h) by (unfold len; lia).
  destruct (Z.ltb_spec (0 + len h) 0) as [?|_]; [lia|].
  unfold slice_to, slice_from, len.
  replace (Z.to_nat (0 + Z.of_nat (String.length h))) with (String.length h) by lia.
  replace (Z.to_nat (0 + Z.of_nat (String.length h) + 1)) with (S (String.length h)) by lia.
  rewrite take_app.
  rewrite drop_app_cons, isServiceName_all.
  reflexivity.
Qed.
End NetworkSpec.

(** C6: [Network(s)] is tcp exactly when [s] splits at its last colon into a
    host without a slash and a non-empty port made of ASCII letters, digits
    and dashes; in every other case, a string without a colon included, it
    is unix. *)
Theorem Network_tcp_iff (s : string) :
  (Network s = "tcp" <->
   exists host port,
     s = host +:+ ":" +:+ port /\ ~ Bytes.mem ":" port /\
     ~ Bytes.mem "/" host /\ port <> "" /\
     (forall c, Bytes.mem c port -> NetworkSpec.service_char c))
  /\ (Network s <> "tcp" -> Network s = "unix").
Proof.
  assert (Hsplit : forall h p, ~ Bytes.mem ":" p ->
            (Network (h +:+ String ":" p) = "tcp" <->
             ~ Bytes.mem "/" h /\ p <> "" /\
             (forall c, Bytes.mem c p -> NetworkSpec.service_char c)) /\
            (Network (h +:+ String ":" p) <> "tcp" ->
             Network (h +:+ String ":" p) = "unix")).
  { intros h p Hp. rewrite NetworkSpec.Network_split by assumption.
    destruct (String.eqb_spec p "") as [->|Hne]; simpl.
    { split; [split; [discriminate | intros (_ & H & _); congruence] | reflexivity]. }
    destruct (Bytes.all is_service_byte p) eqn:Hall; simpl.
    - rewrite Bytes.all_spec in Hall.
      destruct (NetworkSpec.mem_dec "/" h) as [Hm|Hm].
      + pose proof (NetworkSpec.index_from_present 0 _ _ Hm) as Hi.
        unfold strings.IndexByte.
        destruct (Z.geb_spec (strings.index_from 0 "/" h) 0); [|lia].
        split; [split; [discriminate | tauto] | reflexivity].
      + unfold strings.IndexByte. rewrite NetworkSpec.index_from_absent by assumption.
        simpl. split; [|congruence].
        split; [|reflexivity]. intros _. split; [assumption|]. split; [assumption|].
        intros c Hc. now apply NetworkSpec.is_service_byte_spec, Hall.
    - split; [|reflexivity]. split; [discriminate|].
      intros (_ & _ & H).
      assert (Bytes.all is_service_byte p = true); [|congruence].
      apply Bytes.all_spec. intros c Hc. now apply NetworkSpec.is_service_byte_spec, H. }
  destruct (NetworkSpec.mem_dec ":" s) as [Hm|Hm].
  - destruct (NetworkSpec.split_last _ _ Hm) as (h & p & -> & Hp).
    destruct (Hsplit h p Hp) as [Hiff Hdich]. split; [|exact Hdich].
    rewrite Hiff. split.
    + intros (H1 & H2 & H3). exists h, p. repeat split; auto.
    + intros (host & port & Heq & Hport & Hhost & Hne & Hchars).
      change (host +:+ ":" +:+ port) with (host +:+ String ":" port) in Heq.
      destruct (NetworkSpec.split_unique _ _ _ _ _ Heq Hp Hport) as [-> ->].
      auto.
  - assert (Hunix : Network s = "unix").
    { unfold Network, strings.LastIndex.
      now rewrite NetworkSpec.last_index_absent by assumption. }
    split; [|intros _; exact Hunix].
    rewrite Hunix. split; [discriminate|].
    intros (host & port & -> & _). exfalso. apply Hm.
    apply Bytes.mem_app. right. now left.
Qed.

(** ** The request codec *)

Module CodecFacts.
Import jrequest.

(** The entries a loop visits are those of the map, each key once. *)
Lemma range_order_NoDup `{MapOrder} i (m : gmap string string) :
  NoDup (range_order i m).*1.
Proof.
  rewrite (range_order_perm i m). apply NoDup_fst_map_to_list.
Qed.

Lemma range_order_map `{MapOrder} i (m : gmap string string) :
  list_to_map (range_order i m) = m.
Proof.
  rewrite <- (list_to_map_to_list m) at 2.
  apply list_to_map_proper; [apply range_order_NoDup | apply range_order_perm].
Qed.

(** A component of [j] that only the field [k] of the object changes is,
    after the loop, what that field makes of it. *)
Lemma fold_field_component {A} (proj : t -> A) (k : string) (upd : string -> A -> A) :
  (forall j e key val, key <> k -> proj (field (j, e) (key, val)).1 = proj j) ->
  (forall j e val, proj (field (j, e) (k, val)).1 = upd val (proj j)) ->
  forall l st, NoDup l.*1 ->
    proj (fold_left field l st).1 =
    match (list_to_map l : gmap string string) !! k with
    | Some val => upd val (proj st.1)
    | None => proj st.1
    end.
Proof.
  intros Hother Hk. induction l as [|[key val] l IH]; intros [j e] Hnd; [reflexivity|].
  simpl in Hnd. apply NoDup_cons in Hnd as [Hkey Hnd].
  change (fold_left field ((key, val) :: l) (j, e))
    with (fold_left field l (field (j, e) (key, val))).
  rewrite (IH _ Hnd), list_to_map_cons.
  destruct (decide (key = k)) as [->|Hne].
  - rewrite lookup_insert_eq.
    rewrite (not_elem_of_list_to_map_1 _ _ Hkey). apply Hk.
  - rewrite lookup_insert_ne by assumption.
    now rewrite (Hother j e key val Hne).
Qed.

Ltac field_cases :=
  unfold field;
  repeat match goal with
         | |- context [String.eqb ?a ?b] => destruct (String.eqb_spec a b); subst
         | |- context [json.Unmarshal_string ?a ?b] => destruct (json.Unmarshal_string a b)
         | |- context [if ?b then _ else _] => destruct b
         end; simpl; try congruence.

Definition upd_string (val old : string) : string :=
  default old (json.Unmarshal_string val old).

Definition upd_params (val : string) (old : RawMessage) : RawMessage :=
  if String.eqb val "null" then old else Some val.

Lemma fields_fold_component {A} (proj : t -> A) l :
  (forall j c msg, proj (fail j c msg) = proj j) ->
  proj (fields l) = proj (fold_left field l (zero, [])).1.
Proof.
  intros Hfail. unfold fields. destruct (fold_left field l (zero, [])) as [j extra].
  simpl. now destruct (negb _); [rewrite Hfail|].
Qed.

Lemma fields_V l : NoDup l.*1 ->
  V (fields l) =
  match (list_to_map l : gmap string string) !! "jsonrpc" with
  | Some val => upd_string val ""
  | None => ""
  end.
Proof.
  intros Hnd. rewrite fields_fold_component by reflexivity.
  rewrite (fold_field_component V "jsonrpc" upd_string); [reflexivity| | |assumption].
  - intros j e key val Hne. field_cases.
  - intros j e val. unfold upd_string. field_cases.
Qed.

Lemma fields_M l : NoDup l.*1 ->
  M (fields l) =
  match (list_to_map l : gmap string string) !! "method" with
  | Some val => upd_string val ""
  | None => ""
  end.
Proof.
  intros Hnd. rewrite fields_fold_component by reflexivity.
  rewrite (fold_field_component M "method" upd_string); [reflexivity| | |assumption].
  - intros j e key val Hne. field_cases.
  - intros j e val. unfold upd_string. field_cases.
Qed.

Lemma fields_ID l : NoDup l.*1 ->
  ID (fields l) = (list_to_map l : gmap string string) !! "id".
Proof.
  intros Hnd. rewrite fields_fold_component by reflexivity.
  rewrite (fold_field_component ID "id" (fun val _ => Some val)); [|  | |assumption].
  - now destruct (_ !! _).
  - intros j e key val Hne. field_cases.
  - intros j e val. field_cases.
Qed.

Lemma fields_P l : NoDup l.*1 ->
  P (fields l) =
  match (list_to_map l : gmap string string) !! "params" with
  | Some val => upd_params val None
  | None => None
  end.
Proof.
  intros Hnd. rewrite fields_fold_component by reflexivity.
  rewrite (fold_field_component P "params" upd_params); [reflexivity| | |assumption].
  - intros j e key val Hne. field_cases.
  - intros j e val. unfold upd_params, field.
    change (String.eqb "params" "jsonrpc") with false.
    change (String.eqb "params" "id") with false.
    change (String.eqb "params" "method") with false.
    change (String.eqb "params" "params") with true. cbv iota.
    destruct (String.eqb val "null"); cbn [negb];
      now destruct (bad_params _).
Qed.


(** The request [ParseRequests] builds from a parsed [jrequest]. *)
Definition request_of (req : t) : Request :=
  mkRequest (fixID (ID req)) (M req) (P req).

Definition wrong_version (req : t) : bool := negb (String.eqb (V req) Version).

Lemma ParseRequests_fold reqs out err :
  fold_left ParseRequests_step reqs (out, err) =
  (out ++ map request_of reqs,
   if existsb wrong_version reqs then Some ErrInvalidVersion else err).
Proof.
  revert out err; induction reqs as [|r reqs IH]; intros out err; simpl.
  - now rewrite app_nil_r.
  - rewrite IH, <- app_assoc. simpl. f_equal.
    unfold wrong_version at 2.
    destruct (negb (String.eqb (V r) Version)); simpl; [|reflexivity].
    now destruct (existsb wrong_version reqs).
Qed.

Lemma ParseRequests_parsed `{MapOrder} msg reqs :
  jrequests.parseJSON msg = inr reqs ->
  ParseRequests msg =
  (Some (map request_of reqs),
   if existsb wrong_version reqs then Some ErrInvalidVersion else None).
Proof.
  intros Hp. unfold ParseRequests. rewrite Hp, ParseRequests_fold. reflexivity.
Qed.

Lemma parseJSON_messages `{MapOrder} data msgs is_batch :
  jrequests.messages data = inr (msgs, is_batch) ->
  jrequests.parseJSON data = inr (imap (jrequests.member is_batch) msgs).
Proof. intros Hm. unfold jrequests.parseJSON. now rewrite Hm. Qed.

(** A member that decodes as an object: its fields are those of the object,
    whatever the order of the loop. *)
Lemma member_object `{MapOrder} is_batch i raw obj :
  json.Unmarshal_object raw ∅ = Some obj ->
  V (jrequests.member is_batch i raw) =
    match obj !! "jsonrpc" with Some val => upd_string val "" | None => "" end
  /\ ID (jrequests.member is_batch i raw) = obj !! "id"
  /\ M (jrequests.member is_batch i raw) =
    match obj !! "method" with Some val => upd_string val "" | None => "" end
  /\ P (jrequests.member is_batch i raw) =
    match obj !! "params" with Some val => upd_params val None | None => None end
  /\ batch (jrequests.member is_batch i raw) = is_batch.
Proof.
  intros Hobj. unfold jrequests.member, parseJSON. rewrite Hobj. simpl.
  pose proof (range_order_NoDup i obj) as Hnd.
  rewrite (fields_V _ Hnd), (fields_ID _ Hnd), (fields_M _ Hnd), (fields_P _ Hnd).
  now rewrite range_order_map.
Qed.

(** A member that does not decode as an object is left zero, with the
    error recorded. *)
Lemma member_not_object `{MapOrder} is_batch i raw :
  json.Unmarshal_object raw ∅ = None ->
  jrequests.member is_batch i raw =
  mk "" None "" None is_batch
     (Some (Errorf code.ParseError "request is not a JSON object")).
Proof.
  intros Hobj. unfold jrequests.member, parseJSON. now rewrite Hobj.
Qed.

End CodecFacts.

(** C2: a request object whose id is the literal null parses to a request
    with no id: [ID] is empty and [IsNotification] holds, and the request is
    the one parsed from the same object without its id field. *)
Theorem ParseRequests_null_id `{MapOrder}
    (data data' : string) (msgs msgs' : list string) (is_batch is_batch' : bool)
    (i : nat) (raw raw' : string) (obj : gmap string string) :
  jrequests.messages data = inr (msgs, is_batch) ->
  msgs !! i = Some raw ->
  json.Unmarshal_object raw ∅ = Some obj ->
  obj !! "id" = Some "null" ->
  jrequests.messages data' = inr (msgs', is_batch') ->
  msgs' !! i = Some raw' ->
  json.Unmarshal_object raw' ∅ = Some (delete "id" obj) ->
  exists out err out' err' r,
    ParseRequests data = (Some out, err) /\ out !! i = Some r /\
    Request_id r = None /\ ID r = "" /\ IsNotification r = true /\
    ParseRequests data' = (Some out', err') /\ out' !! i = Some r.
Proof.
  intros Hm Hi Hobj Hid Hm' Hi' Hobj'.
  pose proof (CodecFacts.parseJSON_messages _ _ _ Hm) as Hp.
  pose proof (CodecFacts.parseJSON_messages _ _ _ Hm') as Hp'.
  rewrite (CodecFacts.ParseRequests_parsed _ _ Hp).
  rewrite (CodecFacts.ParseRequests_parsed _ _ Hp').
  destruct (CodecFacts.member_object is_batch i raw obj Hobj)
    as (HV & HID & HM & HP & _).
  destruct (CodecFacts.member_object is_batch' i raw' _ Hobj')
    as (HV' & HID' & HM' & HP' & _).
  rewrite lookup_delete_eq in HID'.
  rewrite !lookup_delete_ne in HV', HM', HP' by discriminate.
  assert (Hsame : CodecFacts.request_of (jrequests.member is_batch' i raw')
                  = CodecFacts.request_of (jrequests.member is_batch i raw)).
  { unfold CodecFacts.request_of.
    rewrite HID', HM', HP', HID, HM, HP, Hid. reflexivity. }
  eexists _, _, _, _, (CodecFacts.request_of (jrequests.member is_batch i raw)).
  split; [reflexivity|].
  split; [now rewrite list_lookup_fmap, list_lookup_imap, Hi|].
  unfold ID, IsNotification, CodecFacts.request_of at 1 2 3.
  cbn [Request_id]. rewrite HID, Hid.
  do 3 (split; [reflexivity|]). split; [reflexivity|].
  now rewrite list_lookup_fmap, list_lookup_imap, Hi', <- Hsame.
Qed.

Lemma ParseRequests_null_id_witness :
  exists out err out' err' r,
    @ParseRequests listed_order (lit "{'jsonrpc':'2.0','id':null,'method':'m'}")
      = (Some out, err) /\ out !! 0%nat = Some r /\
    Request_id r = None /\ ID r = "" /\ IsNotification r = true /\
    @ParseRequests listed_order (lit "{'jsonrpc':'2.0','method':'m'}")
      = (Some out', err') /\ out' !! 0%nat = Some r.
Proof.
  apply (@ParseRequests_null_id listed_order
           (lit "{'jsonrpc':'2.0','id':null,'method':'m'}")
           (lit "{'jsonrpc':'2.0','method':'m'}")
           [lit "{'jsonrpc':'2.0','id':null,'method':'m'}"]
           [lit "{'jsonrpc':'2.0','method':'m'}"] false false 0
           (lit "{'jsonrpc':'2.0','id':null,'method':'m'}")
           (lit "{'jsonrpc':'2.0','method':'m'}")
           (list_to_map [("jsonrpc", lit "'2.0'"); ("id", "null"); ("method", lit "'m'")]));
    vm_compute; reflexivity.
Defined.

(** The version marker a member carries on the wire: the text of its
    [jsonrpc] field, when the member is an object and the field is a JSON
    string. *)
Definition version_marker (raw : string) : option string :=
  match json.Unmarshal_object raw ∅ with
  | Some obj =>
    match obj !! "jsonrpc" with
    | Some val =>
      match json.parse val with
      | Some (_, json.TString s) => Some s
      | _ => None
      end
    | None => None
    end
  | None => None
  end.

Lemma member_version `{MapOrder} is_batch i raw :
  jrequest.V (jrequests.member is_batch i raw) = Version ->
  version_marker raw = Some Version.
Proof.
  unfold version_marker.
  destruct (json.Unmarshal_object raw ∅) as [obj|] eqn:Hobj.
  - destruct (CodecFacts.member_object is_batch i raw obj Hobj) as (-> & _).
    destruct (obj !! "jsonrpc") as [val|]; [|discriminate].
    unfold CodecFacts.upd_string, json.Unmarshal_string.
    destruct (json.parse val) as [[r [| | |s| |]]|]; simpl; try discriminate.
    congruence.
  - rewrite (CodecFacts.member_not_object _ _ _ Hobj). discriminate.
Qed.

(** The text of a string field of a decoded object, empty when the field
    is missing or is not a JSON string. *)
Definition string_field (obj : gmap string string) (key : string) : string :=
  match obj !! key with
  | Some val =>
    match json.parse val with
    | Some (_, json.TString s) => s
    | _ => ""
    end
  | None => ""
  end.

(** The request a message stands for on the wire: the id, method and params
    of the object, a null id or params read as absent; the empty request
    when the message is not an object. *)
Definition wire_request (raw : string) : Request :=
  match json.Unmarshal_object raw ∅ with
  | Some obj =>
    mkRequest
      match obj !! "id" with
      | Some val => if String.eqb val "null" then None else Some val
      | None => None
      end
      (string_field obj "method")
      match obj !! "params" with
      | Some val => if String.eqb val "null" then None else Some val
      | None => None
      end
  | None => mkRequest None "" None
  end.

Lemma member_wire_request `{MapOrder} is_batch i raw :
  CodecFacts.request_of (jrequests.member is_batch i raw) = wire_request raw.
Proof.
  unfold wire_request, CodecFacts.request_of.
  destruct (json.Unmarshal_object raw ∅) as [obj|] eqn:Hobj.
  - destruct (CodecFacts.member_object is_batch i raw obj Hobj)
      as (_ & -> & -> & -> & _).
    f_equal.
    + unfold fixID, raw_string. destruct (obj !! "id") as [val|]; [|reflexivity].
      change (default "" (Some val)) with val. now destruct (String.eqb val "null").
    + unfold string_field, CodecFacts.upd_string, json.Unmarshal_string.
      destruct (obj !! "method") as [val|]; [|reflexivity].
      now destruct (json.parse val) as [[r [| | |s| |]]|].
  - now rewrite (CodecFacts.member_not_object _ _ _ Hobj).
Qed.

Lemma messages_batch data raw es :
  Bytes.starts_with "[" data = true ->
  json.parse data = Some (raw, json.TArray es) ->
  jrequests.messages data = inr (es, true).
Proof.
  intros Hs Hp. unfold jrequests.messages, json.Unmarshal_RawMessages.
  rewrite Hs, Hp. destruct data; [discriminate | reflexivity].
Qed.

Lemma messages_single data raw t :
  Bytes.starts_with "[" data = false ->
  json.parse data = Some (raw, t) ->
  jrequests.messages data = inr ([raw], false).
Proof.
  intros Hs Hp. unfold jrequests.messages, json.Unmarshal_RawMessage.
  now rewrite Hs, Hp, orb_true_r.
Qed.

(** What [ParseRequests] returns for the messages of a frame, one of which
    has no version marker or another one than 2.0. *)
Lemma ParseRequests_members `{MapOrder} data msgs is_batch i raw :
  jrequests.messages data = inr (msgs, is_batch) ->
  msgs !! i = Some raw ->
  version_marker raw <> Some "2.0" ->
  ParseRequests data = (Some (map wire_request msgs), Some ErrInvalidVersion).
Proof.
  intros Hm Hi Hver.
  rewrite (CodecFacts.ParseRequests_parsed _ _ (CodecFacts.parseJSON_messages _ _ _ Hm)).
  assert (Hex : existsb CodecFacts.wrong_version
                  (imap (jrequests.member is_batch) msgs) = true).
  { apply existsb_exists. exists (jrequests.member is_batch i raw). split.
    - apply list_elem_of_In, list_elem_of_lookup. exists i.
      now rewrite list_lookup_imap, Hi.
    - unfold CodecFacts.wrong_version.
      destruct (String.eqb_spec (jrequest.V (jrequests.member is_batch i raw)) Version)
        as [HV|]; [|reflexivity].
      exfalso. apply Hver. now apply (member_version is_batch i). }
  rewrite Hex. do 2 f_equal.
  apply list_eq. intros k.
  rewrite !list_lookup_fmap, list_lookup_imap.
  destruct (msgs !! k) as [raw_k|]; [|reflexivity].
  simpl. now rewrite member_wire_request.
Qed.




(** ** The scanner consumes what it accepts *)

Module ScanFacts.
Import Bytes json.

Lemma skip_space_length s : (String.length (skip_space s) <= String.length s)%nat.
Proof.
  induction s as [|c s IH]; simpl; [lia|].
  destruct (is_space c); simpl; lia.
Qed.

Lemma skip_digits_length s : (String.length (skip_digits s) <= String.length s)%nat.
Proof.
  induction s as [|c s IH]; simpl; [lia|].
  destruct (is_digit c); simpl; lia.
Qed.

Lemma digits1_length s r :
  digits1 s = Some r -> (String.length r < String.length s)%nat.
Proof.
  destruct s as [|c s]; simpl; [discriminate|].
  destruct (is_digit c); [|discriminate].
  intros [= <-]. pose proof (skip_digits_length s). lia.
Qed.

Lemma scan_literal_length lit s r :
  scan_literal lit s = Some r -> (String.length r <= String.length s)%nat.
Proof.
  revert s; induction lit as [|l lit IH]; intros s; simpl.
  - intros [= <-]. lia.
  - destruct s as [|c s]; [discriminate|].
    destruct (Ascii.eqb c l); [|discriminate].
    intros H. apply IH in H. simpl. lia.
Qed.

Lemma scan_string_length s body r :
  scan_string s = Some (body, r) -> (String.length r < String.length s)%nat.
Proof.
  remember (String.length s) as n eqn:Hn.
  revert s body r Hn.
  induction n as [n IH] using lt_wf_ind. intros s body r -> H.
  destruct s as [|c s]; simpl in H; [discriminate|].
  destruct (Ascii.eqb c dq); [injection H as _ <-; simpl; lia|].
  destruct (Ascii.eqb c "\").
  - destruct s as [|e s]; [discriminate|].
    destruct (Ascii.eqb e "u").
    + destruct s as [|h1 [|h2 [|h3 [|h4 s]]]]; try discriminate.
      destruct (hexval h1), (hexval h2), (hexval h3), (hexval h4); try discriminate.
      destruct (scan_string s) as [[b' r']|] eqn:Hs; [|discriminate].
      injection H as _ <-.
      specialize (IH (String.length s) ltac:(simpl; lia) s b' r' eq_refl Hs).
      simpl. lia.
    + destruct (_ || _); [|discriminate].
      destruct (scan_string s) as [[b' r']|] eqn:Hs; [|discriminate].
      injection H as _ <-.
      specialize (IH (String.length s) ltac:(simpl; lia) s b' r' eq_refl Hs).
      simpl. lia.
  - destruct (val c <? 32)%N; [discriminate|].
    destruct (scan_string s) as [[b' r']|] eqn:Hs; [|discriminate].
    injection H as _ <-.
    specialize (IH (String.length s) ltac:(simpl; lia) s b' r' eq_refl Hs).
    simpl. lia.
Qed.

Lemma scan_number_length s r :
  scan_number s = Some r -> (String.length r < String.length s)%nat.
Proof.
  unfold scan_number.
  set (s1 := match s with
             | String c r0 => if Ascii.eqb c "-" then r0 else s
             | EmptyString => s
             end).
  assert (Hs1 : (String.length s1 <= String.length s)%nat).
  { subst s1. destruct s as [|c s]; [simpl; lia|].
    destruct (Ascii.eqb c "-"); simpl; lia. }
  destruct s1 as [|c r0]; [discriminate|].
  set (int_end := if Ascii.eqb c "0" then Some r0
                  else if between "1" "9" c then Some (skip_digits r0) else None).
  assert (Hint : forall r1, int_end = Some r1 ->
                   (String.length r1 <= String.length r0)%nat).
  { subst int_end. intros r1.
    destruct (Ascii.eqb c "0"); [intros [= <-]; lia|].
    destruct (between "1" "9" c); [|discriminate].
    intros [= <-]. apply skip_digits_length. }
  destruct int_end as [r1|]; [|discriminate].
  specialize (Hint r1 eq_refl). simpl in Hs1.
  set (frac_end := match r1 with
                   | String d r2 => if Ascii.eqb d "." then digits1 r2 else Some r1
                   | EmptyString => Some r1
                   end).
  assert (Hfrac : forall r3, frac_end = Some r3 ->
                    (String.length r3 <= String.length r1)%nat).
  { subst frac_end. intros r3. destruct r1 as [|d r2]; [intros [= <-]; lia|].
    destruct (Ascii.eqb d "."); [|intros [= <-]; lia].
    intros H. apply digits1_length in H. simpl. lia. }
  destruct frac_end as [r3|]; [|discriminate].
  specialize (Hfrac r3 eq_refl).
  destruct r3 as [|e r4]; [intros [= <-]; simpl; lia|].
  destruct (_ || _); [|intros [= <-]; simpl in *; lia].
  destruct r4 as [|sg r5]; [discriminate|].
  destruct (_ || _); intros H; apply digits1_length in H; simpl in *; lia.
Qed.

Lemma consumed_nonempty s r :
  (String.length r < String.length s)%nat -> consumed s r <> "".
Proof.
  unfold consumed. intros H.
  destruct (String.length s - String.length r)%nat as [|n] eqn:Hn; [lia|].
  destruct s; [simpl in H; lia | discriminate].
Qed.

(** Every value, element list and member list that is accepted takes at
    least one byte, and the raw text of an element or of a member value is
    never empty. *)
Lemma scan_length fuel :
  (forall s t r, scan_value fuel s = Some (t, r) ->
     (String.length r < String.length s)%nat)
  /\ (forall s es r, scan_elements fuel s = Some (es, r) ->
        (String.length r < String.length s)%nat /\ Forall (fun raw => raw <> "") es)
  /\ (forall s ms r, scan_members fuel s = Some (ms, r) ->
        (String.length r < String.length s)%nat
        /\ Forall (fun kv : string * string => kv.2 <> "") ms).
Proof.
  induction fuel as [|fuel (IHv & IHe & IHm)]; [repeat split; discriminate|].
  split; [|split].
  - intros s t r H. cbn [scan_value scan_elements scan_members] in H.
    destruct s as [|c s]; [discriminate|].
    destruct (Ascii.eqb c "{").
    { pose proof (skip_space_length s) as Hsp.
      destruct (skip_space s) as [|c1 r1]; [discriminate|].
      destruct (Ascii.eqb c1 "}"); [injection H as _ <-; simpl in *; lia|].
      destruct (scan_members fuel (String c1 r1)) as [[ms rest]|] eqn:Hms; [|discriminate].
      injection H as _ <-. apply IHm in Hms as [Hlen _]. simpl in *; lia. }
    destruct (Ascii.eqb c "[").
    { pose proof (skip_space_length s) as Hsp.
      destruct (skip_space s) as [|c1 r1]; [discriminate|].
      destruct (Ascii.eqb c1 "]"); [injection H as _ <-; simpl in *; lia|].
      destruct (scan_elements fuel (String c1 r1)) as [[es rest]|] eqn:Hes; [|discriminate].
      injection H as _ <-. apply IHe in Hes as [Hlen _]. simpl in *; lia. }
    destruct (Ascii.eqb c dq).
    { destruct (scan_string s) as [[body rest]|] eqn:Hs; [|discriminate].
      injection H as _ <-. apply scan_string_length in Hs. simpl; lia. }
    destruct (Ascii.eqb c "t").
    { destruct (scan_literal "rue" s) as [rest|] eqn:Hl; [|discriminate].
      cbn [option_map] in H.
      injection H as _ <-. apply scan_literal_length in Hl. simpl; lia. }
    destruct (Ascii.eqb c "f").
    { destruct (scan_literal "alse" s) as [rest|] eqn:Hl; [|discriminate].
      cbn [option_map] in H.
      injection H as _ <-. apply scan_literal_length in Hl. simpl; lia. }
    destruct (Ascii.eqb c "n").
    { destruct (scan_literal "ull" s) as [rest|] eqn:Hl; [|discriminate].
      cbn [option_map] in H.
      injection H as _ <-. apply scan_literal_length in Hl. simpl; lia. }
    destruct (scan_number (String c s)) as [rest|] eqn:Hn; [|discriminate].
    cbn [option_map] in H.
    injection H as _ <-. now apply scan_number_length in Hn.
  - intros s es r H. cbn [scan_value scan_elements scan_members] in H.
    destruct (scan_value fuel s) as [[t r0]|] eqn:Hv; [|discriminate].
    apply IHv in Hv.
    pose proof (skip_space_length r0) as Hsp.
    destruct (skip_space r0) as [|c r1]; [discriminate|].
    destruct (Ascii.eqb c ",").
    + pose proof (skip_space_length r1) as Hsp1.
      destruct (scan_elements fuel (skip_space r1)) as [[es' rest]|] eqn:Hes; [|discriminate].
      injection H as <- <-. apply IHe in Hes as [Hlen Hall].
      split; [simpl in *; lia|]. constructor; [now apply consumed_nonempty | assumption].
    + destruct (Ascii.eqb c "]"); [|discriminate].
      injection H as <- <-. split; [simpl in *; lia|].
      constructor; [now apply consumed_nonempty | constructor].
  - intros s ms r H. cbn [scan_value scan_elements scan_members] in H.
    destruct s as [|q s]; [discriminate|].
    destruct (Ascii.eqb q dq); [|discriminate].
    destruct (scan_string s) as [[body r1]|] eqn:Hs; [|discriminate].
    apply scan_string_length in Hs.
    pose proof (skip_space_length r1) as Hsp1.
    destruct (skip_space r1) as [|colon r2]; [discriminate|].
    destruct (Ascii.eqb colon ":"); [|discriminate].
    pose proof (skip_space_length r2) as Hsp2.
    destruct (scan_value fuel (skip_space r2)) as [[t r3]|] eqn:Hv; [|discriminate].
    apply IHv in Hv.
    pose proof (skip_space_length r3) as Hsp3.
    destruct (skip_space r3) as [|c r4]; [discriminate|].
    destruct (Ascii.eqb c ",").
    + pose proof (skip_space_length r4) as Hsp4.
      destruct (scan_members fuel (skip_space r4)) as [[ms' rest]|] eqn:Hms; [|discriminate].
      injection H as <- <-. apply IHm in Hms as [Hlen Hall].
      split; [simpl in *; lia|]. constructor; [now apply consumed_nonempty | assumption].
    + destruct (Ascii.eqb c "}"); [|discriminate].
      injection H as <- <-. split; [simpl in *; lia|].
      constructor; [now apply consumed_nonempty | constructor].
Qed.

(** The raw value of every field of a decoded object is non-empty. *)
Lemma Unmarshal_object_nonempty raw (obj : gmap string string) k val :
  Unmarshal_object raw ∅ = Some obj -> obj !! k = Some val -> val <> "".
Proof.
  unfold Unmarshal_object, parse.
  destruct (scan_value _ _) as [[t rest]|] eqn:Hv; [|discriminate].
  destruct (skip_space rest); [|discriminate].
  destruct t as [| | | | |ms]; try discriminate.
  - intros [= <-]. now rewrite lookup_empty.
  - intros [= <-].
    assert (Hall : Forall (fun kv : string * string => kv.2 <> "") ms).
    { cbn [scan_value scan_elements scan_members] in Hv. destruct (skip_space raw) as [|c s]; [discriminate|].
      destruct (Ascii.eqb c "{").
      - destruct (skip_space s) as [|c1 r1]; [discriminate|].
        destruct (Ascii.eqb c1 "}"); [injection Hv as <- _; constructor|].
        destruct (scan_members _ _) as [[ms' rest']|] eqn:Hms; [|discriminate].
        injection Hv as <- _. now apply (scan_length _) in Hms as [_ Hall].
      - exfalso. clear -Hv.
        destruct (Ascii.eqb c "[").
        { destruct (skip_space s) as [|c1 r1]; [discriminate|].
          destruct (Ascii.eqb c1 "]"); [discriminate|].
          now destruct (scan_elements _ _) as [[? ?]|]. }
        destruct (Ascii.eqb c dq); [now destruct (scan_string s) as [[? ?]|]|].
        destruct (Ascii.eqb c "t"); [now destruct (scan_literal "rue" s)|].
        destruct (Ascii.eqb c "f"); [now destruct (scan_literal "alse" s)|].
        destruct (Ascii.eqb c "n"); [now destruct (scan_literal "ull" s)|].
        now destruct (scan_number (String c s)). }
    clear Hv. revert Hall.
    assert (Hgen : forall (m : gmap string string),
               (forall k v, m !! k = Some v -> v <> "") ->
               Forall (fun kv : string * string => kv.2 <> "") ms ->
               forall k v, fold_left (fun m kv => <[kv.1:=kv.2]> m) ms m !! k = Some v ->
                           v <> "").
    { induction ms as [|[k0 v0] ms IH]; intros m Hm Hall k' v'; simpl; [apply Hm|].
      apply Forall_cons in Hall as [Hv0 Hall].
      apply IH; [|assumption].
      intros k1 v1. destruct (decide (k0 = k1)) as [->|Hne].
      - rewrite lookup_insert_eq. now intros [= <-].
      - rewrite lookup_insert_ne by assumption. apply Hm. }
    intros Hall. apply (Hgen ∅); [|assumption].
    intros k1 v1. now rewrite lookup_empty.
Qed.

(** A text whose first byte opens an array decodes, if at all, as an
    array. *)
Lemma parse_array data raw t :
  starts_with "[" data = true -> parse data = Some (raw, t) ->
  exists es, t = TArray es.
Proof.
  intros Hs. destruct data as [|c s]; [discriminate|].
  simpl in Hs. apply Ascii.eqb_eq in Hs as ->.
  unfold parse. change (skip_space (String "[" s)) with (String "["%char s).
  destruct (scan_value _ _) as [[t' rest]|] eqn:Hv; [|discriminate].
  destruct (skip_space rest); [|discriminate].
  intros [= _ <-]. cbn [scan_value scan_elements scan_members] in Hv.
  destruct (skip_space s) as [|c1 r1]; [discriminate|].
  destruct (Ascii.eqb c1 "]"); [injection Hv as <- _; eauto|].
  destruct (scan_elements _ _) as [[es rest']|]; [|discriminate].
  injection Hv as <- _; eauto.
Qed.

End ScanFacts.

(** ** The error a request is left with *)

Module ErrFacts.
Import jrequest.

(** A raw value that [json.Unmarshal] accepts for a [string]: a JSON string
    or the literal null. *)
Definition string_or_null (val : string) : bool :=
  match json.parse val with
  | Some (_, json.TString _) | Some (_, json.TNull) => true
  | _ => false
  end.

Lemma Unmarshal_string_ok val old :
  string_or_null val = true -> exists s, json.Unmarshal_string val old = Some s.
Proof.
  unfold string_or_null, json.Unmarshal_string.
  destruct (json.parse val) as [[r [| | |s| |]]|]; try discriminate; eauto.
Qed.

(** The request carries an error of one of the two codes the parser uses. *)
Definition failed (j : t) : Prop :=
  exists e, err j = Some e /\
    (Error_code e = code.InvalidRequest \/ Error_code e = code.ParseError).

(** The request carries an error of code [InvalidRequest]. *)
Definition invalid (j : t) : Prop :=
  exists e, err j = Some e /\ Error_code e = code.InvalidRequest.

Lemma invalid_failed j : invalid j -> failed j.
Proof. intros (e & He & Hc). exists e. auto. Qed.

Lemma fail_invalid j msg : invalid (fail j code.InvalidRequest msg).
Proof. eexists. split; reflexivity. Qed.

Lemma fail_parse j msg : failed (fail j code.ParseError msg).
Proof. eexists. split; [reflexivity | now right]. Qed.

(** The fields other than [params] and the error left by one turn of the
    loop, by the key. *)
Lemma field_err j extra key val :
  err (field (j, extra) (key, val)).1 = err j
  \/ (key = "jsonrpc" /\ string_or_null val = false /\
      err (field (j, extra) (key, val)).1
        = Some (Errorf code.ParseError "invalid version key"))
  \/ (key = "method" /\ string_or_null val = false /\
      err (field (j, extra) (key, val)).1
        = Some (Errorf code.ParseError "invalid method name"))
  \/ (key = "params" /\
      err (field (j, extra) (key, val)).1
        = Some (Errorf code.InvalidRequest "parameters must be array or object")).
Proof.
  unfold field.
  destruct (String.eqb_spec key "jsonrpc") as [->|_].
  { destruct (json.Unmarshal_string val (V j)) eqn:Hu; [now left|].
    right; left. split; [reflexivity|]. split; [|reflexivity].
    destruct (string_or_null val) eqn:Hs; [|reflexivity].
    destruct (Unmarshal_string_ok val (V j) Hs); congruence. }
  destruct (String.eqb_spec key "id") as [->|_]; [now left|].
  destruct (String.eqb_spec key "method") as [->|_].
  { destruct (json.Unmarshal_string val (M j)) eqn:Hu; [now left|].
    right; right; left. split; [reflexivity|]. split; [|reflexivity].
    destruct (string_or_null val) eqn:Hs; [|reflexivity].
    destruct (Unmarshal_string_ok val (M j) Hs); congruence. }
  destruct (String.eqb_spec key "params") as [->|_]; [|now left].
  destruct (bad_params _); [right; right; right; now split|].
  left. now destruct (negb _).
Qed.

Lemma field_failed j extra kv : failed j -> failed (field (j, extra) kv).1.
Proof.
  intros Hf. destruct kv as [key val].
  destruct (field_err j extra key val) as [H|[(_ & _ & H)|[(_ & _ & H)|(_ & H)]]].
  - destruct Hf as (e & He & Hc). exists e. now rewrite H.
  - eexists. split; [exact H | now right].
  - eexists. split; [exact H | now right].
  - eexists. split; [exact H | now left].
Qed.

Lemma field_invalid j extra key val :
  (key = "jsonrpc" \/ key = "method" -> string_or_null val = true) ->
  invalid j -> invalid (field (j, extra) (key, val)).1.
Proof.
  intros Hok Hi.
  destruct (field_err j extra key val) as [H|[(-> & Hs & _)|[(-> & Hs & _)|(_ & H)]]].
  - destruct Hi as (e & He & Hc). exists e. now rewrite H.
  - rewrite Hok in Hs by now left. discriminate.
  - rewrite Hok in Hs by now right. discriminate.
  - eexists. split; [exact H | reflexivity].
Qed.

Lemma fold_failed l st : failed st.1 -> failed (fold_left field l st).1.
Proof.
  revert st; induction l as [|kv l IH]; intros [j extra] Hf; [exact Hf|].
  simpl. apply IH. now apply field_failed.
Qed.

Lemma fold_invalid l st :
  (forall key val, (key, val) ∈ l -> key = "jsonrpc" \/ key = "method" ->
                   string_or_null val = true) ->
  invalid st.1 -> invalid (fold_left field l st).1.
Proof.
  revert st; induction l as [|[key val] l IH]; intros [j extra] Hok Hi; [exact Hi|].
  simpl. apply IH.
  - intros k v Hin. apply Hok. now right.
  - apply field_invalid; [|exact Hi]. apply Hok. now left.
Qed.

(** The turn of the loop for a [params] value that is neither null nor an
    array nor an object. *)
Lemma field_bad_params j extra val :
  val <> "null" -> val <> "" ->
  Bytes.starts_with "[" val = false -> Bytes.starts_with "{" val = false ->
  invalid (field (j, extra) ("params", val)).1.
Proof.
  intros Hnull Hne Ha Ho. unfold field.
  change (String.eqb "params" "jsonrpc") with false.
  change (String.eqb "params" "id") with false.
  change (String.eqb "params" "method") with false.
  change (String.eqb "params" "params") with true. cbv iota.
  destruct (String.eqb_spec val "null") as [|_]; [contradiction|]. cbn [negb].
  assert (Hbad : bad_params (P (set_P j (Some val))) = true).
  { unfold bad_params, raw_len, raw_string, Bytes.len. cbn [set_P P].
    change (default "" (Some val)) with val. rewrite Ha, Ho.
    destruct val; [contradiction | reflexivity]. }
  rewrite Hbad. apply fail_invalid.
Qed.

Lemma fields_failed l : failed (fold_left field l (zero, [])).1 -> failed (fields l).
Proof.
  unfold fields. destruct (fold_left field l (zero, [])) as [j extra]. simpl.
  destruct (negb _); [intros _; apply invalid_failed, fail_invalid | auto].
Qed.

Lemma fields_invalid l : invalid (fold_left field l (zero, [])).1 -> invalid (fields l).
Proof.
  unfold fields. destruct (fold_left field l (zero, [])) as [j extra]. simpl.
  destruct (negb _); [intros _; apply fail_invalid | auto].
Qed.

(** A list of entries that holds a bad [params] value leaves the request
    failed: with [InvalidRequest] when every [jsonrpc] and [method] value
    visited after it is a string or null. *)
Lemma fields_bad_params l1 l2 val :
  val <> "null" -> val <> "" ->
  Bytes.starts_with "[" val = false -> Bytes.starts_with "{" val = false ->
  failed (fields (l1 ++ ("params", val) :: l2))
  /\ ((forall key v, (key, v) ∈ l2 -> key = "jsonrpc" \/ key = "method" ->
                     string_or_null v = true) ->
      invalid (fields (l1 ++ ("params", val) :: l2))).
Proof.
  intros Hnull Hne Ha Ho.
  assert (Hstep : forall st, invalid (field st ("params", val)).1).
  { intros [j extra]. now apply field_bad_params. }
  split.
  - apply fields_failed. rewrite fold_left_app. simpl.
    apply fold_failed, invalid_failed, Hstep.
  - intros Hok. apply fields_invalid. rewrite fold_left_app. simpl.
    apply fold_invalid; [exact Hok | apply Hstep].
Qed.

(** The known keys of a request object. *)
Definition known (key : string) : Prop :=
  key = "jsonrpc" \/ key = "id" \/ key = "method" \/ key = "params".

(** A params value the parser accepts: null, an array or an object. *)
Definition accepted (val : string) : Prop :=
  val = "null" \/ Bytes.starts_with "[" val = true \/ Bytes.starts_with "{" val = true.

Lemma field_clean j key val :
  err j = None -> known key ->
  (key = "jsonrpc" \/ key = "method" -> string_or_null val = true) ->
  (key = "params" -> accepted val /\ P j = None) ->
  exists j', field (j, []) (key, val) = (j', []) /\ err j' = None
             /\ (key <> "params" -> P j' = P j).
Proof.
  intros He Hk Hs Hp. unfold field.
  destruct (String.eqb_spec key "jsonrpc") as [->|N1].
  { destruct (Unmarshal_string_ok val (V j) (Hs (or_introl eq_refl))) as [s ->].
    eexists; split; [reflexivity|]. now split. }
  destruct (String.eqb_spec key "id") as [->|N2].
  { eexists; split; [reflexivity|]. now split. }
  destruct (String.eqb_spec key "method") as [->|N3].
  { destruct (Unmarshal_string_ok val (M j) (Hs (or_intror eq_refl))) as [s ->].
    eexists; split; [reflexivity|]. now split. }
  destruct (String.eqb_spec key "params") as [->|N4].
  2:{ destruct Hk as [?|[?|[?|?]]]; contradiction. }
  destruct (Hp eq_refl) as [Hacc HP].
  assert (Hgood : bad_params (P (if negb (String.eqb val "null")
                                 then set_P j (Some val) else j)) = false).
  { destruct (String.eqb_spec val "null") as [->|Hn]; cbn [negb].
    - now rewrite HP.
    - unfold bad_params, raw_string. cbn [set_P P].
      change (default "" (Some val)) with val.
      destruct Hacc as [?|[-> | ->]]; [contradiction| |].
      + now rewrite andb_false_r.
      + now rewrite andb_false_r. }
  rewrite Hgood. eexists; split; [reflexivity|]. split; [|congruence].
  now destruct (negb _).
Qed.

Lemma fold_clean l j :
  NoDup l.*1 -> err j = None ->
  ("params" ∈ l.*1 -> P j = None) ->
  (forall key val, (key, val) ∈ l ->
     known key /\ (key = "jsonrpc" \/ key = "method" -> string_or_null val = true)
     /\ (key = "params" -> accepted val)) ->
  exists j', fold_left field l (j, []) = (j', []) /\ err j' = None.
Proof.
  revert j; induction l as [|[key val] l IH]; intros j Hnd He HP Hall.
  { exists j. now split. }
  simpl in Hnd. apply NoDup_cons in Hnd as [Hkey Hnd].
  destruct (Hall key val ltac:(now left)) as (Hk & Hs & Hacc).
  destruct (field_clean j key val He Hk Hs) as (j' & Hf & He' & HP').
  { intros ->. split; [now apply Hacc | apply HP; now left]. }
  change (fold_left field ((key, val) :: l) (j, []))
    with (fold_left field l (field (j, []) (key, val))).
  rewrite Hf. apply IH; [assumption..| |].
  - intros Hin. destruct (decide (key = "params")) as [->|Hne]; [contradiction|].
    rewrite (HP' Hne). apply HP. now right.
  - intros k v Hin. apply Hall. now right.
Qed.

End ErrFacts.

Lemma range_order_elem `{MapOrder} i (m : gmap string string) key val :
  (key, val) ∈ range_order i m <-> m !! key = Some val.
Proof. rewrite (range_order_perm i m). apply elem_of_map_to_list. Qed.

(** C3 fails as stated: of the object with the fields jsonrpc 2 and params
    5, visited in the order params, jsonrpc, the request is left with the
    [ParseError] of the version field, not with [InvalidRequest]. *)
Lemma params_error_replaced :
  exists obj : gmap string string,
    json.Unmarshal_object (lit "{'jsonrpc':2,'params':5}") ∅ = Some obj /\
    obj !! "params" = Some "5" /\
    @range_order reversed_order 0 obj = [("params", "5"); ("jsonrpc", "2")] /\
    jrequest.err
      (@jrequests.member reversed_order false 0 (lit "{'jsonrpc':2,'params':5}"))
    = Some (Errorf code.ParseError "invalid version key") /\
    code.ParseError <> code.InvalidRequest.
Proof.
  exists (list_to_map [("jsonrpc", "2"); ("params", "5")]).
  repeat split; try (vm_compute; reflexivity). discriminate.
Qed.

(** C3, amended: a params field that is the literal null is dropped, any
    other value is kept; when it is null, an array or an object and the
    rest of the object is well formed the request carries no error; any
    other params value leaves the request failed, with [InvalidRequest]
    whenever the jsonrpc and method fields are strings or null, and
    otherwise with [InvalidRequest] or the [ParseError] of such a field. *)
Theorem params_checked `{MapOrder}
    (is_batch : bool) (i : nat) (raw : string) (obj : gmap string string)
    (val : string) :
  json.Unmarshal_object raw ∅ = Some obj ->
  obj !! "params" = Some val ->
  (val = "null" -> jrequest.P (jrequests.member is_batch i raw) = None)
  /\ (val <> "null" -> jrequest.P (jrequests.member is_batch i raw) = Some val)
  /\ (ErrFacts.accepted val ->
      (forall key, is_Some (obj !! key) -> ErrFacts.known key) ->
      (forall key v, key = "jsonrpc" \/ key = "method" -> obj !! key = Some v ->
                     ErrFacts.string_or_null v = true) ->
      jrequest.err (jrequests.member is_batch i raw) = None)
  /\ (~ ErrFacts.accepted val ->
      ErrFacts.failed (jrequests.member is_batch i raw)
      /\ ((forall key v, key = "jsonrpc" \/ key = "method" -> obj !! key = Some v ->
                         ErrFacts.string_or_null v = true) ->
          ErrFacts.invalid (jrequests.member is_batch i raw))).
Proof.
  intros Hobj Hval.
  destruct (CodecFacts.member_object is_batch i raw obj Hobj) as (_ & _ & _ & HP & _).
  rewrite Hval in HP. unfold CodecFacts.upd_params in HP.
  split; [intros ->; exact HP|].
  split; [intros Hn; rewrite HP; now destruct (String.eqb_spec val "null")|].
  assert (Hmem : jrequests.member is_batch i raw
                 = jrequest.set_batch (jrequest.fields (range_order i obj)) is_batch).
  { unfold jrequests.member, jrequest.parseJSON. now rewrite Hobj. }
  split.
  - intros Hacc Hknown Hstr. rewrite Hmem. cbn [jrequest.set_batch jrequest.err].
    destruct (ErrFacts.fold_clean (range_order i obj) jrequest.zero)
      as (j' & Hfold & Herr).
    + apply CodecFacts.range_order_NoDup.
    + reflexivity.
    + reflexivity.
    + intros key v Hin. apply range_order_elem in Hin.
      split; [apply Hknown; eauto|]. split; [intros Hk; now apply (Hstr key)|].
      intros ->. congruence.
    + unfold jrequest.fields. rewrite Hfold. exact Herr.
  - intros Hbad.
    assert (Hn : val <> "null") by (intros ->; apply Hbad; now left).
    assert (Ha : Bytes.starts_with "[" val = false).
    { destruct (Bytes.starts_with "[" val) eqn:E; [|reflexivity].
      exfalso. apply Hbad. right. now left. }
    assert (Ho : Bytes.starts_with "{" val = false).
    { destruct (Bytes.starts_with "{" val) eqn:E; [|reflexivity].
      exfalso. apply Hbad. right. now right. }
    pose proof (ScanFacts.Unmarshal_object_nonempty _ _ _ _ Hobj Hval) as Hne.
    assert (Hin : ("params", val) ∈ range_order i obj) by now apply range_order_elem.
    apply list_elem_of_split in Hin as (l1 & l2 & Hl).
    destruct (ErrFacts.fields_bad_params l1 l2 val Hn Hne Ha Ho) as [Hf Hi].
    rewrite <- Hl in Hf, Hi. rewrite Hmem.
    split; [exact Hf|].
    intros Hstr. apply Hi. intros key v Hin Hk. apply (Hstr key v Hk).
    apply (range_order_elem i). rewrite Hl. apply elem_of_app. right. now right.
Qed.

Lemma params_checked_witness :
  ErrFacts.invalid
    (@jrequests.member listed_order false 0
       (lit "{'jsonrpc':'2.0','method':'m','params':5}")).
Proof.
  destruct (@params_checked listed_order false 0
              (lit "{'jsonrpc':'2.0','method':'m','params':5}")
              (list_to_map [("jsonrpc", lit "'2.0'"); ("method", lit "'m'");
                            ("params", "5")])
              "5") as (_ & _ & _ & Hbad).
  - vm_compute; reflexivity.
  - vm_compute; reflexivity.
  - apply Hbad.
    + intros [H|[H|H]]; discriminate.
    + intros key v [-> | ->] Hv; vm_compute in Hv; injection Hv as <-;
        vm_compute; reflexivity.
Defined.

(** C5, on the code: the frame [null] is valid JSON that is neither an
    object nor an array, yet it parses, to one empty request that carries no
    error, and [ParseRequests] reports code -32600 for it, not -32700. *)
Theorem null_frame_accepted :
  json.parse "null" = Some ("null", json.TNull) /\
  @jrequests.parseJSON listed_order "null" = inr [jrequest.zero] /\
  jrequest.err jrequest.zero = None /\
  @ParseRequests listed_order "null"
    = (Some [mkRequest None "" None], Some ErrInvalidVersion) /\
  Error_code ErrInvalidVersion = -32600.
Proof. repeat split; vm_compute; reflexivity. Qed.



(** ** Encoding a batch of one *)

Lemma Marshal_struct_object fields bits :
  json.Marshal_struct fields = Some bits -> Bytes.starts_with "{" bits = true.
Proof.
  unfold json.Marshal_struct. destruct (json.sequence _); [|discriminate].
  now intros [= <-].
Qed.

Lemma Marshal_slice_array {A} (enc : A -> option string) l bits :
  json.Marshal_slice enc l = Some bits -> Bytes.starts_with "[" bits = true.
Proof.
  unfold json.Marshal_slice. destruct (json.sequence _); [|discriminate].
  now intros [= <-].
Qed.

(** A slice of one request is written as a bare object whatever its batch
    marker, and reading a frame that starts with a brace marks no request
    as part of a batch. *)
Lemma jrequests_one_unwrapped `{MapOrder} (j : jrequest.t) (bits : string)
    (reqs : list jrequest.t) :
  jrequests.toJSON [j] = Some bits ->
  jrequests.parseJSON bits = inr reqs ->
  Bytes.starts_with "{" bits = true
  /\ Forall (fun q => jrequest.batch q = false) reqs.
Proof.
  intros Henc Hdec. simpl in Henc.
  pose proof (Marshal_struct_object _ _ Henc) as Hbrace.
  split; [exact Hbrace|].
  unfold jrequests.parseJSON, jrequests.messages in Hdec.
  assert (Hb : Bytes.starts_with "[" bits = false).
  { destruct bits as [|c s]; [discriminate|]. simpl in *.
    apply Ascii.eqb_eq in Hbrace as ->. reflexivity. }
  rewrite Hb, orb_true_r in Hdec.
  destruct (json.Unmarshal_RawMessage bits); [|discriminate].
  injection Hdec as <-. repeat constructor.
Qed.

(** A slice of one response that carries the batch marker is written as an
    array. *)
Lemma jresponses_one_batch (j : jresponse.t) (bits : string) :
  jresponse.batch j = true ->
  jresponses.toJSON [j] = Some bits ->
  Bytes.starts_with "[" bits = true.
Proof.
  intros Hb. unfold jresponses.toJSON. rewrite Hb. cbn [negb].
  apply Marshal_slice_array.
Qed.




(** ** Classifying an inbound message *)

(** C9: a parsed message is a server request exactly when its method is
    non-empty and it has neither an error nor a result; a method alone
    does not make it one. *)
Theorem isServerRequest_iff (j : jresponse.t) :
  (jresponse.isServerRequest j = true <->
   jresponse.M j <> "" /\ jresponse.E j = None /\ jresponse.R j = None)
  /\ (jresponse.M j <> "" ->
      jresponse.E j <> None \/ jresponse.R j <> None ->
      jresponse.isServerRequest j = false).
Proof.
  unfold jresponse.isServerRequest.
  destruct (jresponse.E j), (jresponse.R j),
    (String.eqb_spec (jresponse.M j) ""); simpl;
    (split; [split; [discriminate || tauto | intros (? & ? & ?); congruence]
            | intros ? [?|?]; congruence]).
Qed.

(** ** Waiting for a reply *)



(** ** The built-in [rpc.cancel] *)

Lemma cancelRequests_step_spec (s : Server) (id : string) :
  used (cancelRequests_step s id) = used s
  /\ cancelled (cancelRequests_step s id)
     = cancelled s ++ match used s !! id with Some c => [c] | None => [] end.
Proof.
  unfold cancelRequests_step, Server_cancel.
  destruct (used s !! id); simpl; rewrite ?app_nil_r; split; reflexivity.
Qed.

Lemma cancelRequests_fold (m : gmap string nat) (ids : list string) (s : Server) :
  used s = m ->
  used (fold_left cancelRequests_step ids s) = m
  /\ cancelled (fold_left cancelRequests_step ids s)
     = cancelled s ++ omap (fun id => m !! id) ids.
Proof.
  revert s; induction ids as [|id ids IH]; intros s Hm.
  { simpl. now rewrite app_nil_r. }
  destruct (cancelRequests_step_spec s id) as [Hu Hc].
  destruct (IH (cancelRequests_step s id)) as [Hu' Hc']; [congruence|].
  cbn [fold_left omap]. split; [exact Hu'|].
  rewrite Hc', Hc, Hm, <- app_assoc. simpl. destruct (m !! id); reflexivity.
Qed.

Lemma cancelRequests_spec (s : Server) (ids : list string) :
  used (cancelRequests s ids) = used s
  /\ cancelled (cancelRequests s ids)
     = cancelled s ++ omap (fun id => used s !! id) ids.
Proof. now apply cancelRequests_fold. Qed.

(** C7: [rpc.cancel] received as a call returns [MethodNotFound] and leaves
    the server as it was; received as a notification whose params are an
    array of ids, it invokes, in order, the cancel function of each id that
    is pending, and of no other request. *)
Theorem handleRPCCancel_spec (s : Server) (ctx : Context) (req : Request) :
  (IsNotification (InboundRequest ctx) = false ->
   handleRPCCancel s ctx req = (s, Some (CodeErr code.MethodNotFound))
   /\ code.MethodNotFound = -32601)
  /\ (IsNotification (InboundRequest ctx) = true ->
      forall p p' ids,
        Request_params req = Some p ->
        json.parse p = Some (p', json.TArray ids) ->
        exists s',
          handleRPCCancel s ctx req = (s', None) /\
          used s' = used s /\
          cancelled s' = cancelled s ++ omap (fun id => used s !! id) ids).
Proof.
  unfold handleRPCCancel. split.
  - intros ->. now split.
  - intros -> p p' ids Hp Hparse. cbn [negb].
    assert (Hids : UnmarshalParams_ids req [] = Some ids).
    { unfold UnmarshalParams_ids, json.Unmarshal_RawMessages, raw_len, raw_string.
      rewrite Hp. change (default "" (Some p)) with p. rewrite Hparse.
      destruct p; [vm_compute in Hparse; discriminate | reflexivity]. }
    rewrite Hids. eexists. split; [reflexivity|]. apply cancelRequests_spec.
Qed.

Lemma handleRPCCancel_spec_witness :
  exists s',
    handleRPCCancel (mkServer {[ "1" := 10%nat; "2" := 20%nat ]} [] [])
      (mkContext (mkRequest None "rpc.cancel" (Some "[2,3]")))
      (mkRequest None "rpc.cancel" (Some "[2,3]")) = (s', None) /\
    cancelled s' = [20%nat].
Proof.
  destruct (handleRPCCancel_spec
              (mkServer {[ "1" := 10%nat; "2" := 20%nat ]} [] [])
              (mkContext (mkRequest None "rpc.cancel" (Some "[2,3]")))
              (mkRequest None "rpc.cancel" (Some "[2,3]"))) as [_ Hnote].
  destruct (Hnote eq_refl "[2,3]" "[2,3]" ["2"; "3"] eq_refl eq_refl)
    as (s' & Hrun & _ & Hc).
  exists s'. split; [exact Hrun | exact Hc].
Defined.

(** ** The callback adaptor *)




(** ** More of the request codec *)

(** A message whose version marker is the text 2.0. *)
Definition versioned (msg : string) : bool :=
  match version_marker msg with
  | Some v => String.eqb v "2.0"
  | None => false
  end.

Lemma member_versioned `{MapOrder} is_batch i raw :
  CodecFacts.wrong_version (jrequests.member is_batch i raw) = negb (versioned raw).
Proof.
  unfold CodecFacts.wrong_version, versioned. f_equal.
  destruct (String.eqb_spec (jrequest.V (jrequests.member is_batch i raw)) Version)
    as [HV|HV].
  - rewrite (member_version _ _ _ HV). reflexivity.
  - unfold version_marker.
    destruct (json.Unmarshal_object raw ∅) as [obj|] eqn:Hobj; [|reflexivity].
    destruct (CodecFacts.member_object is_batch i raw obj Hobj) as (HVobj & _).
    rewrite HVobj in HV.
    destruct (obj !! "jsonrpc") as [val|]; [|reflexivity].
    unfold CodecFacts.upd_string, json.Unmarshal_string in HV.
    destruct (json.parse val) as [[r [| | |s| |]]|]; try reflexivity.
    simpl in HV. destruct (String.eqb_spec s "2.0"); [|reflexivity].
    subst s. now elim HV.
Qed.

Lemma existsb_members (g : nat -> string -> jrequest.t) (msgs : list string) :
  (forall i x, CodecFacts.wrong_version (g i x) = negb (versioned x)) ->
  existsb CodecFacts.wrong_version (imap g msgs) = negb (forallb versioned msgs).
Proof.
  revert g; induction msgs as [|m msgs IH]; intros g Hg; [reflexivity|].
  cbn [imap existsb forallb]. rewrite Hg, IH by (intros i x; apply Hg).
  now rewrite negb_andb.
Qed.

(** The messages of a valid frame, on the wire: the elements of the array
    for a frame whose first byte opens an array, else the one value. *)
Definition wire_messages (data raw : string) (t : json.token) : list string :=
  match t with
  | json.TArray es => if Bytes.starts_with "[" data then es else [raw]
  | _ => [raw]
  end.

Lemma messages_wire data raw t :
  json.parse data = Some (raw, t) ->
  jrequests.messages data
  = inr (wire_messages data raw t, Bytes.starts_with "[" data).
Proof.
  intros Hp. unfold wire_messages.
  destruct (Bytes.starts_with "[" data) eqn:Hs.
  - destruct (ScanFacts.parse_array _ _ _ Hs Hp) as [es ->].
    now apply (messages_batch data raw).
  - rewrite (messages_single data raw t Hs Hp). now destruct t.
Qed.

Lemma messages_valid data msgs is_batch :
  jrequests.messages data = inr (msgs, is_batch) ->
  exists raw t, json.parse data = Some (raw, t).
Proof.
  unfold jrequests.messages, json.Unmarshal_RawMessage, json.Unmarshal_RawMessages.
  destruct (json.parse data) as [[raw t]|]; [eauto|].
  now destruct (_ || _).
Qed.

(** X2: [ParseRequests] on every frame that is valid JSON: one request for each
    message, in order, with the id, method and params of the message, and
    the error [ErrInvalidVersion] exactly when some message is without the
    version marker 2.0.  Nothing else is validated: the error recorded on a
    member is not returned. *)
Theorem ParseRequests_valid `{MapOrder} (data raw : string) (t : json.token) :
  json.parse data = Some (raw, t) ->
  ParseRequests data
  = (Some (map wire_request (wire_messages data raw t)),
     if forallb versioned (wire_messages data raw t) then None
     else Some ErrInvalidVersion).
Proof.
  intros Hp.
  rewrite (CodecFacts.ParseRequests_parsed _ _
             (CodecFacts.parseJSON_messages _ _ _ (messages_wire _ _ _ Hp))).
  rewrite existsb_members by (intros; apply member_versioned).
  f_equal; [f_equal|now destruct (forallb _ _)].
  apply list_eq. intros k. rewrite !list_lookup_fmap, list_lookup_imap.
  destruct (_ !! k); [|reflexivity]. simpl. now rewrite member_wire_request.
Qed.

Lemma ParseRequests_valid_witness :
  @ParseRequests listed_order (lit "{'jsonrpc':'2.0','method':'m','params':5}")
  = (Some [mkRequest None "m" (Some "5")], None).
Proof.
  rewrite (@ParseRequests_valid listed_order
             (lit "{'jsonrpc':'2.0','method':'m','params':5}")
             (lit "{'jsonrpc':'2.0','method':'m','params':5}")
             (json.TObject [("jsonrpc", lit "'2.0'"); ("method", lit "'m'");
                            ("params", "5")])).
  - vm_compute; reflexivity.
  - vm_compute; reflexivity.
Defined.

Lemma wire_request_raw raw :
  Request_id (wire_request raw) <> Some ""
  /\ Request_id (wire_request raw) <> Some "null"
  /\ Request_params (wire_request raw) <> Some ""
  /\ Request_params (wire_request raw) <> Some "null".
Proof.
  unfold wire_request.
  destruct (json.Unmarshal_object raw ∅) as [obj|] eqn:Hobj;
    [|repeat split; discriminate].
  cbn [Request_id Request_params].
  assert (Hfield : forall key,
            match obj !! key with
            | Some val => if String.eqb val "null" then None else Some val
            | None => None
            end <> Some ""
            /\ match obj !! key with
               | Some val => if String.eqb val "null" then None else Some val
               | None => None
               end <> Some "null").
  { intros key. destruct (obj !! key) as [val|] eqn:Hk; [|split; discriminate].
    pose proof (ScanFacts.Unmarshal_object_nonempty _ _ _ _ Hobj Hk) as Hne.
    destruct (String.eqb_spec val "null"); [split; discriminate|].
    split; congruence. }
  destruct (Hfield "id"), (Hfield "params"). auto.
Qed.

(** X3: the requests [ParseRequests] returns keep the accessors honest: a
    request is a notification exactly when [ID] is empty, it has params
    exactly when its params are not nil, and neither its id nor its params
    is ever the text null. *)
Theorem ParseRequests_requests `{MapOrder} (data : string)
    (out : list Request) (err : option Error) (r : Request) :
  ParseRequests data = (Some out, err) ->
  r ∈ out ->
  (IsNotification r = true <-> ID r = "")
  /\ (HasParams r = true <-> Request_params r <> None)
  /\ ID r <> "null"
  /\ Request_params r <> Some "null".
Proof.
  intros Hparse Hin.
  assert (Hr : exists raw, r = wire_request raw).
  { unfold ParseRequests in Hparse.
    destruct (jrequests.parseJSON data) as [e|reqs] eqn:Hp; [discriminate|].
    rewrite CodecFacts.ParseRequests_fold in Hparse.
    injection Hparse as <- _. simpl in Hin.
    apply list_elem_of_fmap in Hin as (j & -> & Hj).
    unfold jrequests.parseJSON in Hp.
    destruct (jrequests.messages data) as [e|[msgs is_batch]]; [discriminate|].
    injection Hp as <-.
    apply list_elem_of_lookup in Hj as (i & Hi).
    rewrite list_lookup_imap in Hi.
    destruct (msgs !! i) as [raw|]; [|discriminate].
    injection Hi as <-. exists raw. apply member_wire_request. }
  destruct Hr as (raw & ->).
  destruct (wire_request_raw raw) as (Hid1 & Hid2 & Hp1 & Hp2).
  unfold IsNotification, ID, HasParams, raw_len, raw_string, Bytes.len.
  destruct (Request_id (wire_request raw)) as [id|],
           (Request_params (wire_request raw)) as [p|]; simpl;
    repeat split; try congruence; try discriminate; try reflexivity;
    try (intros ->; congruence);
    try (destruct id; [congruence | discriminate]);
    try (destruct p; [congruence | reflexivity]).
Qed.

Lemma ParseRequests_requests_witness :
  IsNotification (mkRequest None "m" (Some "[1]")) = true
  <-> ID (mkRequest None "m" (Some "[1]")) = "".
Proof.
  destruct (@ParseRequests_requests listed_order
              (lit "{'jsonrpc':'2.0','id':null,'method':'m','params':[1]}")
              [mkRequest None "m" (Some "[1]")] None
              (mkRequest None "m" (Some "[1]"))) as [Hnote _].
  - vm_compute; reflexivity.
  - apply list_elem_of_here.
  - exact Hnote.
Defined.

(** ** More of the checks on one request *)

Lemma field_extra_unknown j extra key val :
  ~ ErrFacts.known key ->
  (jrequest.field (j, extra) (key, val)).2 = extra ++ [key].
Proof.
  intros Hk. unfold jrequest.field.
  destruct (String.eqb_spec key "jsonrpc") as [->|_];
    [exfalso; apply Hk; now left|].
  destruct (String.eqb_spec key "id") as [->|_];
    [exfalso; apply Hk; right; now left|].
  destruct (String.eqb_spec key "method") as [->|_];
    [exfalso; apply Hk; right; right; now left|].
  destruct (String.eqb_spec key "params") as [->|_];
    [exfalso; apply Hk; right; right; now right|].
  reflexivity.
Qed.

Lemma field_extra_kept j extra kv :
  extra <> [] -> (jrequest.field (j, extra) kv).2 <> [].
Proof.
  intros Hne. destruct kv as [key val]. unfold jrequest.field.
  destruct (String.eqb key "jsonrpc");
    [now destruct (json.Unmarshal_string val (jrequest.V j))|].
  destruct (String.eqb key "id"); [exact Hne|].
  destruct (String.eqb key "method");
    [now destruct (json.Unmarshal_string val (jrequest.M j))|].
  destruct (String.eqb key "params"); [exact Hne|].
  simpl. now destruct extra.
Qed.

Lemma fold_extra_kept l st :
  st.2 <> [] -> (fold_left jrequest.field l st).2 <> [].
Proof.
  revert st; induction l as [|kv l IH]; intros [j extra] Hne; [exact Hne|].
  simpl. apply IH. now apply field_extra_kept.
Qed.

(** X4: a request object with a key other than jsonrpc, id, method and params
    is marked failed with [InvalidRequest] for its extra fields, whatever
    the order of the fields and whatever else is wrong with them. *)
Theorem extra_fields_rejected `{MapOrder}
    (is_batch : bool) (i : nat) (raw : string) (obj : gmap string string)
    (key : string) :
  json.Unmarshal_object raw ∅ = Some obj ->
  is_Some (obj !! key) ->
  ~ ErrFacts.known key ->
  jrequest.err (jrequests.member is_batch i raw)
  = Some (Errorf code.InvalidRequest "extra fields in request")
  /\ Error_code (Errorf code.InvalidRequest "extra fields in request") = -32600.
Proof.
  intros Hobj [val Hval] Hk. split; [|reflexivity].
  unfold jrequests.member, jrequest.parseJSON. rewrite Hobj.
  cbn [fst jrequest.set_batch jrequest.err].
  assert (Hin : (key, val) ∈ range_order i obj) by now apply range_order_elem.
  apply list_elem_of_split in Hin as (l1 & l2 & ->).
  unfold jrequest.fields. rewrite fold_left_app. cbn [fold_left].
  destruct (fold_left jrequest.field l1 (jrequest.zero, [])) as [j1 extra1].
  pose proof (field_extra_unknown j1 extra1 key val Hk) as Hext.
  pose proof (fold_extra_kept l2 (jrequest.field (j1, extra1) (key, val))) as Hkept.
  rewrite Hext in Hkept. specialize (Hkept ltac:(now destruct extra1)).
  destruct (fold_left jrequest.field l2 _) as [j2 extra2]. simpl in Hkept.
  destruct extra2; [contradiction | reflexivity].
Qed.

Lemma extra_fields_rejected_witness :
  jrequest.err
    (@jrequests.member reversed_order false 0
       (lit "{'jsonrpc':7,'method':'m','params':5,'extra':true}"))
  = Some (Errorf code.InvalidRequest "extra fields in request").
Proof.
  destruct (@extra_fields_rejected reversed_order false 0
              (lit "{'jsonrpc':7,'method':'m','params':5,'extra':true}")
              (list_to_map [("jsonrpc", "7"); ("method", lit "'m'");
                            ("params", "5"); ("extra", "true")])
              "extra") as [Herr _].
  - vm_compute; reflexivity.
  - vm_compute; eauto.
  - intros [H|[H|[H|H]]]; discriminate.
  - exact Herr.
Defined.

(** X5: a request object with no other keys than the four known ones, whose
    jsonrpc and method fields are strings or null and whose params, if any,
    are null, an array or an object, is not marked failed; the value of the
    version marker plays no part. *)
Theorem well_formed_request_accepted `{MapOrder}
    (is_batch : bool) (i : nat) (raw : string) (obj : gmap string string) :
  json.Unmarshal_object raw ∅ = Some obj ->
  (forall key, is_Some (obj !! key) -> ErrFacts.known key) ->
  (forall key v, key = "jsonrpc" \/ key = "method" -> obj !! key = Some v ->
                 ErrFacts.string_or_null v = true) ->
  (forall v, obj !! "params" = Some v -> ErrFacts.accepted v) ->
  jrequest.err (jrequests.member is_batch i raw) = None
  /\ jrequest.batch (jrequests.member is_batch i raw) = is_batch.
Proof.
  intros Hobj Hknown Hstr Hacc.
  unfold jrequests.member, jrequest.parseJSON. rewrite Hobj.
  cbn [fst jrequest.set_batch jrequest.err jrequest.batch]. split; [|reflexivity].
  destruct (ErrFacts.fold_clean (range_order i obj) jrequest.zero)
    as (j' & Hfold & Herr).
  - apply CodecFacts.range_order_NoDup.
  - reflexivity.
  - reflexivity.
  - intros key v Hin. apply range_order_elem in Hin.
    split; [apply Hknown; eauto|]. split; [intros Hk; now apply (Hstr key)|].
    intros ->. now apply Hacc.
  - unfold jrequest.fields. rewrite Hfold. exact Herr.
Qed.

Lemma well_formed_request_accepted_witness :
  jrequest.err
    (@jrequests.member listed_order true 3
       (lit "{'jsonrpc':'1.0','id':[1],'method':'m','params':{'a':1}}"))
  = None.
Proof.
  destruct (@well_formed_request_accepted listed_order true 3
              (lit "{'jsonrpc':'1.0','id':[1],'method':'m','params':{'a':1}}")
              (list_to_map [("jsonrpc", lit "'1.0'"); ("id", "[1]");
                            ("method", lit "'m'"); ("params", lit "{'a':1}")]))
    as [Herr _].
  - vm_compute; reflexivity.
  - intros key [v Hv].
    destruct (decide (key = "jsonrpc")) as [->|N1]; [now left|].
    destruct (decide (key = "id")) as [->|N2]; [right; now left|].
    destruct (decide (key = "method")) as [->|N3]; [right; right; now left|].
    destruct (decide (key = "params")) as [->|N4]; [right; right; now right|].
    exfalso. rewrite !list_to_map_cons, list_to_map_nil in Hv. cbn [fst snd] in Hv.
    rewrite !lookup_insert_ne, lookup_empty in Hv by congruence. discriminate.
  - intros key v [-> | ->] Hv; vm_compute in Hv; injection Hv as <-;
      vm_compute; reflexivity.
  - intros v Hv. vm_compute in Hv. injection Hv as <-. right; right. reflexivity.
  - exact Herr.
Defined.

(** ** More of the address helper *)

(** X6: [isServiceName] accepts exactly the strings made of ASCII letters,
    digits and dashes, the empty string among them: the loop over runes
    misses no byte. *)
Theorem isServiceName_iff (s : string) :
  isServiceName s = true <->
  (forall c, Bytes.mem c s -> NetworkSpec.service_char c).
Proof.
  rewrite NetworkSpec.isServiceName_all, Bytes.all_spec.
  split; intros Hall c Hc; apply NetworkSpec.is_service_byte_spec; auto.
Qed.

(** ** More of [rpc.cancel] *)

Definition cancel_line (id : string) : string :=
  "Cancelled request " +:+ id +:+ " by client order".

Lemma cancelRequests_logged (m : gmap string nat) (ids : list string) (s : Server) :
  used s = m ->
  logged (fold_left cancelRequests_step ids s)
  = logged s ++ omap (fun id => match m !! id with
                                | Some _ => Some (cancel_line id)
                                | None => None
                                end) ids.
Proof.
  revert s; induction ids as [|id ids IH]; intros s Hm.
  { simpl. now rewrite app_nil_r. }
  cbn [fold_left omap].
  rewrite IH by (rewrite <- Hm; apply cancelRequests_step_spec).
  unfold cancelRequests_step, Server_cancel. rewrite Hm.
  simpl. destruct (m !! id); simpl; rewrite <- ?app_assoc; reflexivity.
Qed.

(** X7: [cancelRequests] logs one line for each id it finds pending, in order,
    and ids that are not pending leave the server exactly as it was:
    [CancelRequest] of an unknown id is a no-op. *)
Theorem cancelRequests_log_and_noop (s : Server) (ids : list string) :
  logged (cancelRequests s ids)
  = logged s ++ omap (fun id => match used s !! id with
                                | Some _ => Some (cancel_line id)
                                | None => None
                                end) ids
  /\ (Forall (fun id => used s !! id = None) ids -> cancelRequests s ids = s)
  /\ (forall id, used s !! id = None -> CancelRequest s id = s).
Proof.
  split; [now apply cancelRequests_logged|].
  assert (Hnoop : Forall (fun id => used s !! id = None) ids -> cancelRequests s ids = s).
  { unfold cancelRequests. induction 1 as [|id ids Hid _ IH]; [reflexivity|].
    cbn [fold_left]. unfold cancelRequests_step at 2, Server_cancel.
    rewrite Hid. exact IH. }
  split; [exact Hnoop|].
  intros id Hid. unfold CancelRequest, cancelRequests. cbn [fold_left].
  unfold cancelRequests_step, Server_cancel. now rewrite Hid.
Qed.

(** X8: the notification form of [rpc.cancel] with params that are not an
    array: absent, empty or null params cancel nothing and report no error;
    any other value, and any text that is not JSON, is reported as a
    decoding error, and nothing is cancelled. *)
Theorem handleRPCCancel_other_params (s : Server) (ctx : Context) (req : Request) :
  IsNotification (InboundRequest ctx) = true ->
  (raw_len (Request_params req) = 0 -> handleRPCCancel s ctx req = (s, None))
  /\ (forall p p',
        Request_params req = Some p -> json.parse p = Some (p', json.TNull) ->
        handleRPCCancel s ctx req = (s, None))
  /\ (forall p,
        Request_params req = Some p -> p <> "" ->
        (json.parse p = None
         \/ exists p' t, json.parse p = Some (p', t) /\ t <> json.TNull
                         /\ forall es, t <> json.TArray es) ->
        handleRPCCancel s ctx req = (s, Some DecodeErr)).
Proof.
  intros Hn. unfold handleRPCCancel, UnmarshalParams_ids. rewrite Hn. cbn [negb].
  split; [intros ->; reflexivity|]. split.
  - intros p p' Hp Hparse. rewrite Hp. unfold raw_len, raw_string.
    change (default "" (Some p)) with p. unfold json.Unmarshal_RawMessages.
    rewrite Hparse. now destruct (Bytes.len p =? 0).
  - intros p Hp Hne Hbad. rewrite Hp. unfold raw_len, raw_string, Bytes.len.
    change (default "" (Some p)) with p.
    destruct p as [|c p0]; [contradiction|].
    change (Z.of_nat (String.length (String c p0)) =? 0) with false. cbv iota.
    unfold json.Unmarshal_RawMessages.
    destruct Hbad as [-> | (p' & t & -> & Hnull & Harr)]; [reflexivity|].
    destruct t; try reflexivity; [contradiction | exfalso; eapply Harr; reflexivity].
Qed.

Lemma handleRPCCancel_other_params_witness :
  handleRPCCancel (mkServer {[ "1" := 10%nat ]} [] [])
    (mkContext (mkRequest None "rpc.cancel" (Some "1")))
    (mkRequest None "rpc.cancel" (Some "1"))
  = (mkServer {[ "1" := 10%nat ]} [] [], Some DecodeErr).
Proof.
  destruct (handleRPCCancel_other_params (mkServer {[ "1" := 10%nat ]} [] [])
              (mkContext (mkRequest None "rpc.cancel" (Some "1")))
              (mkRequest None "rpc.cancel" (Some "1")) eq_refl)
    as (_ & _ & Hbad).
  apply (Hbad "1" eq_refl); [discriminate|].
  right. exists "1", json.TNumber. repeat split; discriminate.
Defined.

(** ** More of [Response.wait] *)

(** X9: [wait] is safe to call again: once a first call has taken the reply,
    whether it returned or panicked, a later call finds the channel closed
    and returns at once, leaving the response and the trace as they are; on
    a channel that holds nothing yet it blocks with nothing changed. *)
Theorem wait_again (Quote : string -> string) (r : Response) (trace : list action) :
  (forall raw, Response_ch r = ChanValue raw ->
     (wait Quote (r, trace)).1 <> Blocked
     /\ Response_ch (wait Quote (r, trace)).2.1 = ChanClosed
     /\ wait Quote (wait Quote (r, trace)).2
        = (Returned tt, (wait Quote (r, trace)).2))
  /\ (Response_ch r = ChanClosed -> wait Quote (r, trace) = (Returned tt, (r, trace)))
  /\ (Response_ch r = ChanEmpty -> wait Quote (r, trace) = (Blocked, (r, trace))).
Proof.
  split; [|split].
  - intros raw Hch. unfold wait, bind, receive. rewrite Hch.
    destruct (jresponse.E raw) as [e|];
      unfold store_err, store_result, close_channel, call_cancel, get_id, ret, when;
      cbn [Response_id Response_err Response_result Response_ch];
      destruct (negb _); cbn [panic fst snd Response_ch];
      repeat split; discriminate.
  - intros Hch. unfold wait, bind, receive. now rewrite Hch.
  - intros Hch. unfold wait, bind, receive. now rewrite Hch.
Qed.

Lemma wait_again_witness :
  wait (fun s => s)
    (wait (fun s => s)
       (mkResponse "7" None None
          (ChanValue (jresponse.mk "2.0" (Some "8") None (Some "true") "" None false)),
        [])).2
  = (Returned tt,
     (mkResponse "7" None (Some "true") ChanClosed,
      [StoreResult (Some "true"); CloseChannel; CallCancel])).
Proof.
  destruct (wait_again (fun s => s)
              (mkResponse "7" None None
                 (ChanValue (jresponse.mk "2.0" (Some "8") None (Some "true") "" None false)))
              []) as [Hvalue _].
  destruct (Hvalue _ eq_refl) as (_ & _ & Hagain).
  exact Hagain.
Defined.

(** ** More of the callback adaptor *)

